(** * Responses gateway: sanitizer, fallback controller, translator, stream reducer

    A shallow embedding of the four TypeScript units that make up the
    /v1/responses route (upstream client, wire types, handler, translation)
    together with the properties established about them.

    Conventions used when reading the TypeScript:
    - an optional field [f?: T] is an [option T];
    - a JavaScript truthiness test on a string is [truthy], i.e. "present and
      not the empty string";
    - integral JavaScript numbers (indices, timestamps, HTTP statuses, token
      counts) are [Z]; sampling parameters are only copied and are kept as [Q];
    - [Set<string>] is [gset string] and [Map<number,string>] is
      [gmap Z string];
    - a local array filled by [push] is the list of the pushed values in push
      order. *)

From Stdlib Require Import ZArith QArith.
From stdpp Require Import base option list gmap sets strings pretty.

Set Warnings "-clear-no-such-hyp".

Local Open Scope string_scope.
Local Open Scope Z_scope.
Local Open Scope list_scope.

(** ** JavaScript helpers *)

(** [if (s)] for a value of type [string | null | undefined]. *)
Definition truthy (s : option string) : bool :=
  match s with
  | Some s => if decide (s = "") then false else true
  | None => false
  end.

(** The string a truthy value holds: [Some s] exactly when the test
    [if (s)] succeeds. *)
Definition nonempty (s : option string) : option string :=
  match s with
  | Some s => if decide (s = "") then None else Some s
  | None => None
  end.

(** [a || b] on values of type [string | undefined]. *)
Definition js_or (a b : option string) : option string :=
  if truthy a then a else b.

(** [a || d] where [d] is a string: always a string. *)
Definition js_or_default (a : option string) (d : string) : string :=
  match nonempty a with
  | Some s => s
  | None => d
  end.

(** Opaque JSON documents ([Record<string, unknown>]); they are only ever
    copied from one payload to the other, so the serialized text stands for
    the value. *)
Inductive Json : Type := JsonText (serialized : string).

(** ** Wire types of the Responses protocol (routes/responses/types) *)

Inductive ImageDetail : Type := DetailLow | DetailHigh | DetailAuto.

Inductive ResponsesContentPart : Type :=
  | ResponsesInputText (text : string)
  | ResponsesInputImage (image_url : string) (detail : option ImageDetail)
  | ResponsesInputFile (file_url filename file_data file_id : option string)
  | ResponsesOutputText (text : string).

(** [string | Array<ResponsesContentPart>] *)
Inductive ResponsesContent : Type :=
  | ContentText (s : string)
  | ContentArray (parts : list ResponsesContentPart).

Inductive MessageRole : Type := RoleUser | RoleAssistant.

Inductive ResponsesInputItem : Type :=
  | ResponsesSystemMessage (content : string)
  | ResponsesDeveloperMessage (content : string)
  | ResponsesUserMessage (content : ResponsesContent)
  | ResponsesAssistantMessage (content : ResponsesContent) (id : option string)
  | ResponsesMessageInput (role : MessageRole) (content : ResponsesContent)
      (id : option string)
  | ResponsesFunctionCall (call_id name arguments : string) (id : option string)
  | ResponsesFunctionCallOutput (call_id : string) (output : ResponsesContent)
  | ResponsesItemReference (id : string).

Inductive ResponsesToolChoice : Type :=
  | ToolChoiceNone
  | ToolChoiceAuto
  | ToolChoiceRequired
  | ToolChoiceFunction (name : string).

Record ResponsesTool : Type := mkResponsesTool {
  rt_name : string;
  rt_description : option string;
  rt_parameters : Json;
  rt_strict : option bool
}.

Record ResponsesPayload : Type := mkResponsesPayload {
  rp_model : string;
  rp_input : list ResponsesInputItem;
  rp_instructions : option string;
  rp_max_output_tokens : option Z;
  rp_temperature : option Q;
  rp_top_p : option Q;
  rp_stream : option bool;
  rp_tools : option (list ResponsesTool);
  rp_tool_choice : option ResponsesToolChoice;
  rp_metadata : option Json;
  rp_store : option bool;
  rp_previous_response_id : option string
}.

Definition with_input (p : ResponsesPayload) (input : list ResponsesInputItem)
  : ResponsesPayload :=
  mkResponsesPayload (rp_model p) input (rp_instructions p)
    (rp_max_output_tokens p) (rp_temperature p) (rp_top_p p) (rp_stream p)
    (rp_tools p) (rp_tool_choice p) (rp_metadata p) (rp_store p)
    (rp_previous_response_id p).

Definition with_max_output_tokens (p : ResponsesPayload) (m : option Z)
  : ResponsesPayload :=
  mkResponsesPayload (rp_model p) (rp_input p) (rp_instructions p)
    m (rp_temperature p) (rp_top_p p) (rp_stream p)
    (rp_tools p) (rp_tool_choice p) (rp_metadata p) (rp_store p)
    (rp_previous_response_id p).

Record ResponsesUsage : Type := mkResponsesUsage {
  input_tokens : Z;
  output_tokens : Z;
  total_tokens : option Z
}.

Inductive ResponsesOutputItem : Type :=
  | ResponsesOutputMessage (id : string)
      (content : list ResponsesContentPart) (status : option string)
  | ResponsesOutputFunctionCall (id call_id name arguments : string)
      (status : option string).

(** ["completed" | "incomplete" | "failed"] *)
Inductive ResponseStatus : Type :=
  | StatusCompleted
  | StatusIncomplete
  | StatusFailed.

Record ResponsesError : Type := mkResponsesError {
  err_type : string;
  err_code : string;
  err_message : string
}.

Record ResponsesResponse : Type := mkResponsesResponse {
  rr_id : string;
  rr_created_at : Z;
  rr_model : string;
  rr_output : list ResponsesOutputItem;
  rr_usage : option ResponsesUsage;
  rr_status : option ResponseStatus;
  rr_error : option ResponsesError
}.

Inductive ResponsesStreamEvent : Type :=
  | ResponsesCreatedEvent (id : string) (created_at : Z) (model : string)
  | ResponsesOutputItemAddedEvent (output_index : Z) (item : ResponsesOutputItem)
  | ResponsesOutputItemDoneEvent (output_index : Z) (item : ResponsesOutputItem)
  | ResponsesOutputTextDeltaEvent (item_id : string) (output_index : Z)
      (delta : string)
  | ResponsesFunctionCallArgumentsDeltaEvent (item_id : string)
      (output_index : Z) (delta : string)
  | ResponsesCompletedEvent (id : string) (status : string)
      (usage : option ResponsesUsage)
  | ResponsesErrorEvent (error : ResponsesError).

(** ** Request sanitizer (first half of [handleResponses]) *)

(** First loop: [functionCallIds.add(item.call_id)] for every
    [function_call] item, in input order. *)
Definition collectFunctionCallIds (input : list ResponsesInputItem)
  : gset string :=
  foldl (fun ids item =>
           match item with
           | ResponsesFunctionCall call_id _ _ _ => ids ∪ {[ call_id ]}
           | _ => ids
           end) ∅ input.

(** Second loop: the [call_id]s pushed to [orphanOutputs]. *)
Definition orphanOutputs (functionCallIds : gset string)
    (input : list ResponsesInputItem) : list string :=
  foldl (fun orphans item =>
           match item with
           | ResponsesFunctionCallOutput call_id _ =>
               if decide (call_id ∈ functionCallIds) then orphans
               else orphans ++ [call_id]
           | _ => orphans
           end) [] input.

(** The predicate handed to [payload.input.filter]. *)
Definition keepItem (functionCallIds : gset string)
    (item : ResponsesInputItem) : bool :=
  match item with
  | ResponsesFunctionCallOutput call_id _ =>
      bool_decide (call_id ∈ functionCallIds)
  | _ => true
  end.

(** The value of [payload.input] once the orphan pass is over. *)
Definition sanitizeInput (input : list ResponsesInputItem)
  : list ResponsesInputItem :=
  let functionCallIds := collectFunctionCallIds input in
  let orphans := orphanOutputs functionCallIds input in
  if (0 <? Z.of_nat (length orphans))
  then List.filter (keepItem functionCallIds) input
  else input.

(** ** Wire types of the Chat-Completions protocol *)

(** Modelled from the spec: the declarations of [Message], [ContentPart],
    [Tool], [ChatCompletionsPayload] and [ChatCompletionResponse] live in
    services/copilot/create-chat-completions, which is not part of the
    sources at hand.  The fields below are the ones the translation reads or
    writes; roles are the five the spec lists for ChatMessage. *)
Inductive ChatRole : Type :=
  | ChatSystem
  | ChatDeveloper
  | ChatUser
  | ChatAssistant
  | ChatTool.

Inductive ContentPart : Type :=
  | TextPart (text : string)
  | ImageUrlPart (url : string) (detail : option ImageDetail).

(** [string | Array<ContentPart> | null] *)
Inductive MessageContent : Type :=
  | ContentNull
  | ContentString (s : string)
  | ContentParts (parts : list ContentPart).

(** [{ id, type: "function", function: { name, arguments } }] *)
Record ToolCall : Type := mkToolCall {
  tc_id : string;
  tc_name : string;
  tc_arguments : string
}.

Record Message : Type := mkMessage {
  msg_role : ChatRole;
  msg_content : MessageContent;
  msg_tool_calls : option (list ToolCall);
  msg_tool_call_id : option string
}.

(** [{ type: "function", function: { name, description, parameters } }] *)
Record Tool : Type := mkTool {
  tool_name : string;
  tool_description : option string;
  tool_parameters : Json
}.

Inductive ChatToolChoice : Type :=
  | ChatChoiceNone
  | ChatChoiceAuto
  | ChatChoiceRequired
  | ChatChoiceFunction (name : string).

Record ChatCompletionsPayload : Type := mkChatCompletionsPayload {
  cp_model : string;
  cp_messages : list Message;
  cp_temperature : option Q;
  cp_top_p : option Q;
  cp_max_tokens : option Z;
  cp_stream : option bool;
  cp_tools : option (list Tool);
  cp_tool_choice : option ChatToolChoice
}.

Record ResponseMessage : Type := mkResponseMessage {
  rm_content : option string;
  rm_tool_calls : option (list ToolCall)
}.

Record Choice : Type := mkChoice {
  ch_index : Z;
  ch_message : ResponseMessage;
  ch_finish_reason : option string
}.

Record ChatUsage : Type := mkChatUsage {
  prompt_tokens : Z;
  completion_tokens : Z;
  chat_total_tokens : Z
}.

Record ChatCompletionResponse : Type := mkChatCompletionResponse {
  cr_id : string;
  cr_created : Z;
  cr_model : string;
  cr_choices : list Choice;
  cr_usage : option ChatUsage
}.

(** The chunk type is declared inline in the signature of
    [translateChatChunkToResponsesEvents]. *)
Record FunctionDelta : Type := mkFunctionDelta {
  fd_name : option string;
  fd_arguments : option string
}.

Record ToolCallDelta : Type := mkToolCallDelta {
  tcd_index : Z;
  tcd_id : option string;
  tcd_function : option FunctionDelta
}.

Record Delta : Type := mkDelta {
  d_content : option string;
  d_role : option string;
  d_tool_calls : option (list ToolCallDelta)
}.

Record ChunkChoice : Type := mkChunkChoice {
  cc_index : Z;
  cc_delta : Delta;
  cc_finish_reason : option string
}.

Record ChatChunk : Type := mkChatChunk {
  ck_id : string;
  ck_model : string;
  ck_created : Z;
  ck_choices : list ChunkChoice
}.

(** ** Request translation (routes/responses/translation) *)

(** The body of the [for (const part of content)] loop, with the local
    array [parts] as an accumulator; a text part returns at once. *)
Fixpoint contentPartsLoop (content : list ResponsesContentPart)
    (parts : list ContentPart) : MessageContent :=
  match content with
  | [] =>
      if (0 <? Z.of_nat (length parts)) then ContentParts parts
      else ContentNull
  | ResponsesInputText text :: _ => ContentString text
  | ResponsesOutputText text :: _ => ContentString text
  | ResponsesInputImage image_url detail :: rest =>
      contentPartsLoop rest (parts ++ [ImageUrlPart image_url detail])
  | ResponsesInputFile _ _ _ _ :: rest => contentPartsLoop rest parts
  end.

Definition translateResponsesContentToChatContent (content : ResponsesContent)
  : MessageContent :=
  match content with
  | ContentText s => if decide (s = "") then ContentNull else ContentString s
  | ContentArray parts => contentPartsLoop parts []
  end.

(** The [map]/[join] over a structured tool output: the texts of the
    [output_text] parts, concatenated in order; other parts add nothing. *)
Definition joinOutputText (output : list ResponsesContentPart) : string :=
  foldr (fun p acc =>
           match p with
           | ResponsesOutputText text => text +:+ acc
           | _ => acc
           end) "" output.

(** The TypeScript return type is [Message | Array<Message> | null]; no
    branch builds an array, so the result is an optional message. *)
Definition translateInputItemToMessage (item : ResponsesInputItem)
  : option Message :=
  match item with
  | ResponsesSystemMessage content =>
      Some (mkMessage ChatSystem (ContentString content) None None)
  | ResponsesDeveloperMessage content =>
      Some (mkMessage ChatDeveloper (ContentString content) None None)
  | ResponsesUserMessage content
  | ResponsesMessageInput RoleUser content _ =>
      Some (mkMessage ChatUser
              (translateResponsesContentToChatContent content) None None)
  | ResponsesAssistantMessage content _
  | ResponsesMessageInput RoleAssistant content _ =>
      Some (mkMessage ChatAssistant
              (translateResponsesContentToChatContent content) None None)
  | ResponsesFunctionCall call_id name arguments _ =>
      Some (mkMessage ChatAssistant ContentNull
              (Some [mkToolCall call_id name arguments]) None)
  | ResponsesFunctionCallOutput call_id output =>
      Some (mkMessage ChatTool
              (ContentString
                 match output with
                 | ContentText s => s
                 | ContentArray parts => joinOutputText parts
                 end)
              None (Some call_id))
  | ResponsesItemReference _ => None
  end.

Definition translateResponsesToolToChatTool (tool : ResponsesTool) : Tool :=
  mkTool (rt_name tool) (rt_description tool) (rt_parameters tool).

Definition translateToolChoice (toolChoice : option ResponsesToolChoice)
  : option ChatToolChoice :=
  match toolChoice with
  | None => None
  | Some ToolChoiceNone => Some ChatChoiceNone
  | Some ToolChoiceAuto => Some ChatChoiceAuto
  | Some ToolChoiceRequired => Some ChatChoiceRequired
  | Some (ToolChoiceFunction name) => Some (ChatChoiceFunction name)
  end.

(** The tool-message ordering loop that follows the translation of the
    items only logs warnings and is left out. *)
Definition translateResponsesToChatPayload (responsesPayload : ResponsesPayload)
  : ChatCompletionsPayload :=
  let messages :=
    match nonempty (rp_instructions responsesPayload) with
    | Some instructions =>
        [mkMessage ChatSystem (ContentString instructions) None None]
    | None => []
    end in
  let messages :=
    foldl (fun messages item =>
             match translateInputItemToMessage item with
             | Some translated => messages ++ [translated]
             | None => messages
             end) messages (rp_input responsesPayload) in
  mkChatCompletionsPayload
    (rp_model responsesPayload)
    messages
    (rp_temperature responsesPayload)
    (rp_top_p responsesPayload)
    (rp_max_output_tokens responsesPayload)
    (rp_stream responsesPayload)
    (fmap (M:=list) translateResponsesToolToChatTool
       <$> rp_tools responsesPayload)
    (translateToolChoice (rp_tool_choice responsesPayload)).

(** ** Response translation, non-streaming *)

(** One iteration of [for (const choice of chatResponse.choices)], pushing
    onto [output]. *)
Definition pushChoice (chatResponseId : string)
    (output : list ResponsesOutputItem) (choice : Choice)
  : list ResponsesOutputItem :=
  let message := ch_message choice in
  let output :=
    match nonempty (rm_content message) with
    | Some content =>
        output ++
        [ResponsesOutputMessage
           ("msg_" +:+ chatResponseId +:+ "_" +:+ pretty (ch_index choice))
           [ResponsesOutputText content]
           (Some "completed")]
    | None => output
    end in
  match rm_tool_calls message with
  | Some tool_calls =>
      if (0 <? Z.of_nat (length tool_calls))
      then foldl (fun output toolCall =>
                    output ++
                    [ResponsesOutputFunctionCall (tc_id toolCall)
                       (tc_id toolCall) (tc_name toolCall)
                       (tc_arguments toolCall) (Some "completed")])
             output tool_calls
      else output
  | None => output
  end.

Definition translateChatResponseToResponses
    (chatResponse : ChatCompletionResponse) : ResponsesResponse :=
  let output := foldl (pushChoice (cr_id chatResponse)) []
                  (cr_choices chatResponse) in
  mkResponsesResponse
    (cr_id chatResponse)
    (cr_created chatResponse)
    (cr_model chatResponse)
    output
    (match cr_usage chatResponse with
     | Some usage =>
         Some (mkResponsesUsage (prompt_tokens usage)
                 (completion_tokens usage) (Some (chat_total_tokens usage)))
     | None => None
     end)
    (Some StatusCompleted)
    None.

(** ** Streaming event reducer *)

Record StreamState : Type := mkStreamState {
  responseId : string;
  sentCreated : bool;
  currentItemIndex : Z;
  toolCallIds : gmap Z string
}.

(** [for (const x of xs) { ... }] where the body mutates the stream state
    and pushes events. *)
Fixpoint forEach {A : Type}
    (body : A → StreamState → StreamState * list ResponsesStreamEvent)
    (xs : list A) (state : StreamState)
  : StreamState * list ResponsesStreamEvent :=
  match xs with
  | [] => (state, [])
  | x :: xs =>
      let '(state, events) := body x state in
      let '(state, events') := forEach body xs state in
      (state, events ++ events')
  end.

(** The placeholder [`call_${tc.index}`]. *)
Definition placeholderId (index : Z) : string := "call_" +:+ pretty index.

(** Body of [for (const tc of delta.tool_calls)]. *)
Definition translateToolCallDelta (tc : ToolCallDelta) (state : StreamState)
  : StreamState * list ResponsesStreamEvent :=
  let toolCallId := js_or (toolCallIds state !! tcd_index tc) (tcd_id tc) in
  let state :=
    match nonempty (tcd_id tc) with
    | Some id =>
        mkStreamState (responseId state) (sentCreated state)
          (currentItemIndex state) (<[tcd_index tc := id]> (toolCallIds state))
    | None => state
    end in
  let added :=
    match nonempty (tcd_function tc ≫= fd_name) with
    | Some name =>
        [ResponsesOutputItemAddedEvent (tcd_index tc)
           (ResponsesOutputFunctionCall
              (js_or_default toolCallId (placeholderId (tcd_index tc)))
              (js_or_default toolCallId (placeholderId (tcd_index tc)))
              name "" None)]
    | None => []
    end in
  let argumentsDelta :=
    match nonempty (tcd_function tc ≫= fd_arguments) with
    | Some arguments =>
        [ResponsesFunctionCallArgumentsDeltaEvent
           (js_or_default toolCallId (placeholderId (tcd_index tc)))
           (tcd_index tc) arguments]
    | None => []
    end in
  (state, added ++ argumentsDelta).

(** Body of [for (const choice of chunk.choices)]. *)
Definition translateChunkChoice (chunk : ChatChunk) (choice : ChunkChoice)
    (state : StreamState) : StreamState * list ResponsesStreamEvent :=
  let delta := cc_delta choice in
  let textDelta :=
    match nonempty (d_content delta) with
    | Some content =>
        [ResponsesOutputTextDeltaEvent
           ("msg_" +:+ ck_id chunk +:+ "_" +:+ pretty (cc_index choice))
           (cc_index choice) content]
    | None => []
    end in
  let '(state, toolEvents) :=
    match d_tool_calls delta with
    | Some tool_calls => forEach translateToolCallDelta tool_calls state
    | None => (state, [])
    end in
  let completed :=
    match nonempty (cc_finish_reason choice) with
    | Some _ => [ResponsesCompletedEvent (ck_id chunk) "completed" None]
    | None => []
    end in
  (state, textDelta ++ toolEvents ++ completed).

Definition translateChatChunkToResponsesEvents (chunk : ChatChunk)
    (state : StreamState) : StreamState * list ResponsesStreamEvent :=
  let '(state, created) :=
    if sentCreated state then (state, [])
    else (mkStreamState (ck_id chunk) true (currentItemIndex state)
            (toolCallIds state),
          [ResponsesCreatedEvent (ck_id chunk) (ck_created chunk)
             (ck_model chunk)]) in
  let '(state, events) :=
    forEach (translateChunkChoice chunk) (ck_choices chunk) state in
  (state, created ++ events).

(** The literal the handler builds at stream start. *)
Definition initialStreamState : StreamState :=
  mkStreamState "" false 0 ∅.

(** A whole stream of decoded chunks fed through one state. *)
Definition translateChunks (chunks : list ChatChunk) (state : StreamState)
  : StreamState * list ResponsesStreamEvent :=
  forEach translateChatChunkToResponsesEvents chunks state.

(** ** Protocol selector and fallback controller (routes/responses/handler) *)

(** What an upstream call can throw.  [HTTPError] is the class of lib/error
    thrown by the upstream client on a non-2xx answer, carrying the upstream
    response (its status) and body; anything else (token missing, network
    failure, a thrown non-[Error] value) is [OtherError]. *)
Inductive Thrown : Type :=
  | HTTPError (status : Z) (body : string)
  | OtherError (message : string).

(** A server-sent message of the primary stream; forwarded as it is. *)
Record SSEMessage : Type := mkSSEMessage {
  sse_event : option string;
  sse_data : option string;
  sse_id : option string
}.

(** Parsed data on which the reducer throws, by what the reducer does
    before the throw.  The handler hands whatever [JSON.parse] returns to the
    reducer inside one [try]; data that is not chunk-shaped makes the reducer
    throw, the [catch] swallows the throw, the events (local to the call) are
    lost and the writes already made to the stream state stay.
    - [ThrowsOnNull]: the data is [null]; the first property access throws
      ([chunk.id] after the latch was set, [chunk.choices] otherwise).
    - [ThrowsAfter id fragments]: any other data; [id] is its [id] field
      ([None] when it has none, as in an error object or a bare number) and
      [fragments] are the tool-call fragments the loops went through before
      the throw, in processing order (none when [choices] is absent or not
      iterable; the throw is then the one of the [for]).  What the reducer
      read before the throw has its declared type. *)
Inductive ThrowingData : Type :=
  | ThrowsOnNull
  | ThrowsAfter (id : option string) (fragments : list ToolCallDelta).

(** A server-sent message of the fallback stream, after the handler's tests
    on [chunk.data]: no data, the [DONE] sentinel, data on which [JSON.parse]
    throws, data that parses to a chunk, or data that parses to something on
    which the reducer throws. *)
Inductive ChatStreamMessage : Type :=
  | ChatNoData
  | ChatDone
  | ChatInvalidJson
  | ChatData (parsed : ChatChunk)
  | ChatThrowing (parsed : ThrowingData).

(** Result of [createResponses]: a decoded object, an event stream, or a
    throw. *)
Inductive ResponsesResult : Type :=
  | ResponsesObject (response : ResponsesResponse)
  | ResponsesStream (messages : list SSEMessage)
  | ResponsesThrows (error : Thrown).

(** Result of [createChatCompletions]. *)
Inductive ChatResult : Type :=
  | ChatObject (response : ChatCompletionResponse)
  | ChatStream (messages : list ChatStreamMessage)
  | ChatThrows (error : Thrown).

(** Modelled from the spec: the model metadata record of lib/state is not
    part of the sources at hand; the handler reads its id, its optional list
    of supported endpoints and its default output-token limit. *)
Record Model : Type := mkModel {
  model_id : string;
  supported_endpoints : option (list string);
  limits_max_output_tokens : option Z
}.

Inductive UpstreamCall : Type :=
  | CallResponses (payload : ResponsesPayload)
  | CallChatCompletions (payload : ChatCompletionsPayload).

(** What the handler hands back to the client. *)
Inductive HandlerReply : Type :=
  | InvalidJsonBody
  | JsonReply (response : ResponsesResponse)
  | PassThroughStream (messages : list SSEMessage)
  | TranslatedStream (events : list ResponsesStreamEvent)
  | ForwardError (error : Thrown)
  | UnsupportedModel (model : string).

(** A block that either returns from the handler or falls through with a
    value. *)
Inductive Flow (A : Type) : Type :=
  | Return (calls : list UpstreamCall) (reply : HandlerReply)
  | Continue (calls : list UpstreamCall) (value : A).

Arguments Return {A} calls reply.
Arguments Continue {A} calls value.

Definition shouldFallbackToChat (error : Thrown) (supportsChat : bool) : bool :=
  if negb supportsChat then false
  else match error with
       | OtherError _ => false
       | HTTPError status _ =>
           (status =? 400) || (status =? 404) || (status =? 422)
       end.

(** [!endpoints || endpoints.includes(name)] *)
Definition supportsEndpoint (endpoints : option (list string)) (name : string)
  : bool :=
  match endpoints with
  | None => true
  | Some endpoints => bool_decide (name ∈ endpoints)
  end.

(** The stream state as the handler holds it at run time.  [responseId] is
    declared a string, but a run that throws can leave [undefined] in it
    (data without an [id]); [ls_responseIdUndefined] records that, and the
    string of [ls_state] then stands for nothing. *)
Record LoopState : Type := mkLoopState {
  ls_state : StreamState;
  ls_responseIdUndefined : bool
}.

Definition initialLoopState : LoopState :=
  mkLoopState initialStreamState false.

(** The state a throwing run of the reducer leaves behind. *)
Definition throwingRun (data : ThrowingData) (ls : LoopState) : LoopState :=
  let state := ls_state ls in
  match data with
  | ThrowsOnNull =>
      if sentCreated state then ls
      else mkLoopState
             (mkStreamState (responseId state) true (currentItemIndex state)
                (toolCallIds state))
             (ls_responseIdUndefined ls)
  | ThrowsAfter id fragments =>
      let ls :=
        if sentCreated state then ls
        else mkLoopState
               (mkStreamState (default (responseId state) id) true
                  (currentItemIndex state) (toolCallIds state))
               (bool_decide (id = None)) in
      mkLoopState
        (forEach translateToolCallDelta fragments (ls_state ls)).1
        (ls_responseIdUndefined ls)
  end.

(** Body of the [for await] loop of the translated stream: messages without
    data, the [DONE] sentinel and undecodable data write nothing and touch
    nothing; every event of a chunk is written in order; a throwing run
    writes nothing but leaves its state. *)
Definition translateStreamMessage (message : ChatStreamMessage)
    (ls : LoopState) : LoopState * list ResponsesStreamEvent :=
  match message with
  | ChatData parsed =>
      let '(state, events) :=
        translateChatChunkToResponsesEvents parsed (ls_state ls) in
      (mkLoopState state
         (sentCreated (ls_state ls) && ls_responseIdUndefined ls),
       events)
  | ChatThrowing parsed => (throwingRun parsed ls, [])
  | ChatNoData | ChatDone | ChatInvalidJson => (ls, [])
  end.

(** The [for await] loop. *)
Fixpoint streamLoop (messages : list ChatStreamMessage) (ls : LoopState)
  : LoopState * list ResponsesStreamEvent :=
  match messages with
  | [] => (ls, [])
  | message :: messages =>
      let '(ls, events) := translateStreamMessage message ls in
      let '(ls, events') := streamLoop messages ls in
      (ls, events ++ events')
  end.

Section Handler.

Variable createResponses : ResponsesPayload → ResponsesResult.
Variable createChatCompletions : ChatCompletionsPayload → ChatResult.
Variable models : option (list Model).

(** The [if (supportsResponses) { try { ... } catch { ... } }] block; it
    falls through with the value of [lastError]. *)
Definition tryPrimary (payload : ResponsesPayload)
    (supportsResponses supportsChatCompletions : bool) : Flow (option Thrown) :=
  if supportsResponses then
    match createResponses payload with
    | ResponsesObject response =>
        Return [CallResponses payload] (JsonReply response)
    | ResponsesStream messages =>
        Return [CallResponses payload] (PassThroughStream messages)
    | ResponsesThrows error =>
        if negb (shouldFallbackToChat error supportsChatCompletions)
        then Return [CallResponses payload] (ForwardError error)
        else Continue [CallResponses payload] (Some error)
    end
  else Continue [] None.

(** The [if (supportsChatCompletions && lastError) { ... }] block together
    with the two exits that follow it. *)
Definition tryFallback (payload : ResponsesPayload)
    (supportsChatCompletions : bool) (lastError : option Thrown)
  : list UpstreamCall * HandlerReply :=
  if supportsChatCompletions && bool_decide (is_Some lastError) then
    let chatPayload := translateResponsesToChatPayload payload in
    ([CallChatCompletions chatPayload],
     match createChatCompletions chatPayload with
     | ChatObject chatResponse =>
         JsonReply (translateChatResponseToResponses chatResponse)
     | ChatStream messages =>
         TranslatedStream (streamLoop messages initialLoopState).2
     | ChatThrows error => ForwardError error
     end)
  else
    match lastError with
    | Some lastError => ([], ForwardError lastError)
    | None => ([], UnsupportedModel (rp_model payload))
    end.

(** [state.models?.data.find((model) => model.id === payload.model)] *)
Definition selectModel (payload : ResponsesPayload) : option Model :=
  models ≫= List.find (fun model =>
                         bool_decide (model_id model = rp_model payload)).

(** The payload as it stands when the endpoints are tried: orphan outputs
    filtered out, a missing [max_output_tokens] filled from the model. *)
Definition preparePayload (payload : ResponsesPayload) : ResponsesPayload :=
  let payload := with_input payload (sanitizeInput (rp_input payload)) in
  match rp_max_output_tokens payload with
  | None =>
      with_max_output_tokens payload
        (selectModel payload ≫= limits_max_output_tokens)
  | Some _ => payload
  end.

(** [handleResponses] from the parsed body on ([None] when [JSON.parse]
    throws): the upstream calls made, in order, and the reply. *)
Definition handleResponses (body : option ResponsesPayload)
  : list UpstreamCall * HandlerReply :=
  match body with
  | None => ([], InvalidJsonBody)
  | Some payload =>
      let selectedModel := selectModel payload in
      let payload := preparePayload payload in
      let endpoints := selectedModel ≫= supported_endpoints in
      let supportsResponses := supportsEndpoint endpoints "/responses" in
      let supportsChatCompletions :=
        supportsEndpoint endpoints "/chat/completions" in
      match tryPrimary payload supportsResponses supportsChatCompletions with
      | Return calls reply => (calls, reply)
      | Continue calls lastError =>
          let '(calls', reply) :=
            tryFallback payload supportsChatCompletions lastError in
          (calls ++ calls', reply)
      end
  end.

End Handler.

(** ** Upstream client (services/copilot/create-responses) *)

(** [c.type === "input_image"] *)
Definition isInputImage (part : ResponsesContentPart) : bool :=
  match part with
  | ResponsesInputImage _ _ => true
  | _ => false
  end.

(** Only items with a [content] field that is an array are inspected: the
    [output] of a function-call output is not. *)
Definition hasVisionContent (item : ResponsesInputItem) : bool :=
  match item with
  | ResponsesUserMessage (ContentArray content)
  | ResponsesAssistantMessage (ContentArray content) _
  | ResponsesMessageInput _ (ContentArray content) _ =>
      existsb isInputImage content
  | _ => false
  end.

(** The role test comes first, then the type test. *)
Definition isAgentInput (item : ResponsesInputItem) : bool :=
  match item with
  | ResponsesAssistantMessage _ _
  | ResponsesMessageInput RoleAssistant _ _ => true
  | ResponsesFunctionCall _ _ _ _
  | ResponsesFunctionCallOutput _ _ => true
  | ResponsesSystemMessage _
  | ResponsesDeveloperMessage _
  | ResponsesUserMessage _
  | ResponsesMessageInput RoleUser _ _
  | ResponsesItemReference _ => false
  end.

(** The POST the client issues.  The base URL and the common headers come
    from lib/api-config, which is not part of the sources at hand; of the
    headers the request keeps what this unit decides: the vision flag it
    passes to [copilotHeaders] and the value of [X-Initiator].  The body is
    the payload ([JSON.stringify] is not modelled). *)
Record UpstreamRequest : Type := mkUpstreamRequest {
  req_vision : bool;
  req_initiator : string;
  req_body : ResponsesPayload
}.

(** The answer of [fetch]: status, the body as text, and what the two
    decoders make of the body ([response.json()] throws on a body that is
    not JSON; the message of that error is kept). *)
Record UpstreamResponse : Type := mkUpstreamResponse {
  up_status : Z;
  up_text : string;
  up_json : string + ResponsesResponse;
  up_events : list SSEMessage
}.

(** [fetch] rejects (network failure; the message of the error is kept) or
    resolves with a response. *)
Inductive FetchResult : Type :=
  | FetchRejects (message : string)
  | FetchResolves (response : UpstreamResponse).

(** [response.ok]: the status is in the range 200-299. *)
Definition responseOk (response : UpstreamResponse) : bool :=
  (200 <=? up_status response) && (up_status response <=? 299).

Definition buildRequest (payload : ResponsesPayload) : UpstreamRequest :=
  let hasVision := existsb hasVisionContent (rp_input payload) in
  let isAgentCall := existsb isAgentInput (rp_input payload) in
  mkUpstreamRequest hasVision (if isAgentCall then "agent" else "user") payload.

(** [createResponses] over the token of lib/state and [fetch]. *)
Definition createResponses (copilotToken : option string)
    (fetch : UpstreamRequest → FetchResult) (payload : ResponsesPayload)
  : ResponsesResult :=
  if negb (truthy copilotToken)
  then ResponsesThrows (OtherError "Copilot token not found")
  else
    match fetch (buildRequest payload) with
    | FetchRejects message => ResponsesThrows (OtherError message)
    | FetchResolves response =>
        if negb (responseOk response)
        then ResponsesThrows
               (HTTPError (up_status response) (up_text response))
        else
          match rp_stream payload with
          | Some true => ResponsesStream (up_events response)
          | _ =>
              match up_json response with
              | inl message => ResponsesThrows (OtherError message)
              | inr decoded => ResponsesObject decoded
              end
          end
    end.

(** The chunks a fallback stream decodes to, in arrival order. *)
Definition decodedChunks (messages : list ChatStreamMessage)
  : list ChatChunk :=
  omap (fun message =>
          match message with
          | ChatData parsed => Some parsed
          | _ => None
          end) messages.

(** A message whose data parsed: a chunk or throwing data. *)
Definition isParsed (message : ChatStreamMessage) : bool :=
  match message with
  | ChatData _ | ChatThrowing _ => true
  | ChatNoData | ChatDone | ChatInvalidJson => false
  end.

Definition notThrowing (message : ChatStreamMessage) : Prop :=
  match message with
  | ChatThrowing _ => False
  | _ => True
  end.

(** The first message of a stream whose data parsed. *)
Definition firstParsed (messages : list ChatStreamMessage)
  : option ChatStreamMessage :=
  head (List.filter isParsed messages).


(** Every function-call output of [input] has a function call of [input]
    with the same call_id. *)
Definition outputsMatched (input : list ResponsesInputItem) : Prop :=
  ∀ call_id output,
    ResponsesFunctionCallOutput call_id output ∈ input →
    ∃ name arguments id,
      ResponsesFunctionCall call_id name arguments id ∈ input.

(** A delta that carries a role at most: no text, no tool calls, and the
    choice has not finished. *)
Definition quietChoice (choice : ChunkChoice) : Prop :=
  nonempty (d_content (cc_delta choice)) = None
  ∧ default [] (d_tool_calls (cc_delta choice)) = []
  ∧ nonempty (cc_finish_reason choice) = None.

(** The events the reducer can produce, with what each is bound to carry. *)
Definition reducerEvent (event : ResponsesStreamEvent) : Prop :=
  match event with
  | ResponsesCreatedEvent _ _ _ => True
  | ResponsesOutputTextDeltaEvent _ _ delta => delta ≠ ""
  | ResponsesOutputItemAddedEvent _
      (ResponsesOutputFunctionCall id call_id name arguments status) =>
      id = call_id ∧ name ≠ "" ∧ arguments = "" ∧ status = None
  | ResponsesFunctionCallArgumentsDeltaEvent _ _ delta => delta ≠ ""
  | ResponsesCompletedEvent _ status usage =>
      status = "completed" ∧ usage = None
  | ResponsesOutputItemAddedEvent _ (ResponsesOutputMessage _ _ _)
  | ResponsesOutputItemDoneEvent _ _
  | ResponsesErrorEvent _ => False
  end.

(** ** Properties used to state the results *)

(** Every [function_call_output] of [items] is preceded, in [items], by a
    [function_call] with the same [call_id]. *)
Definition precededByCall (items : list ResponsesInputItem) : Prop :=
  ∀ (i : nat) call_id output,
    items !! i = Some (ResponsesFunctionCallOutput call_id output) →
    ∃ (j : nat) name arguments id,
      (j < i)%nat ∧
      items !! j = Some (ResponsesFunctionCall call_id name arguments id).

Definition isFunctionCallOutput (item : ResponsesInputItem) : bool :=
  match item with
  | ResponsesFunctionCallOutput _ _ => true
  | _ => false
  end.

(** The text of a text part ([input_text] or [output_text]). *)
Definition partText (part : ResponsesContentPart) : option string :=
  match part with
  | ResponsesInputText text | ResponsesOutputText text => Some text
  | _ => None
  end.

(** The image parts of a content array, in order, as image-url parts. *)
Definition imageParts (content : list ResponsesContentPart)
  : list ContentPart :=
  omap (fun part =>
          match part with
          | ResponsesInputImage image_url detail =>
              Some (ImageUrlPart image_url detail)
          | _ => None
          end) content.

(** What one choice contributes to the output, in the spec's words: at most
    one assistant message, present when the content is non-empty, followed
    by one function call per tool call. *)
Definition choiceOutput (responseId : string) (choice : Choice)
  : list ResponsesOutputItem :=
  match nonempty (rm_content (ch_message choice)) with
  | Some content =>
      [ResponsesOutputMessage
         ("msg_" +:+ responseId +:+ "_" +:+ pretty (ch_index choice))
         [ResponsesOutputText content] (Some "completed")]
  | None => []
  end
  ++ ((fun toolCall =>
         ResponsesOutputFunctionCall (tc_id toolCall) (tc_id toolCall)
           (tc_name toolCall) (tc_arguments toolCall) (Some "completed"))
        <$> default [] (rm_tool_calls (ch_message choice))).

Definition itemStatus (item : ResponsesOutputItem) : option string :=
  match item with
  | ResponsesOutputMessage _ _ status
  | ResponsesOutputFunctionCall _ _ _ _ status => status
  end.

(** A [response.completed] event carries the status "completed"; other
    events carry no response status. *)
Definition completedStatusOk (event : ResponsesStreamEvent) : Prop :=
  match event with
  | ResponsesCompletedEvent _ status _ => status = "completed"
  | _ => True
  end.

Definition isCreated (event : ResponsesStreamEvent) : bool :=
  match event with
  | ResponsesCreatedEvent _ _ _ => true
  | _ => false
  end.

Definition countCreated (events : list ResponsesStreamEvent) : nat :=
  length (List.filter isCreated events).

(** The output index and the id carried by an event that belongs to a tool
    call. *)
Definition toolEventId (event : ResponsesStreamEvent) : option (Z * string) :=
  match event with
  | ResponsesOutputItemAddedEvent output_index
      (ResponsesOutputFunctionCall id _ _ _ _) => Some (output_index, id)
  | ResponsesFunctionCallArgumentsDeltaEvent item_id output_index _ =>
      Some (output_index, item_id)
  | _ => None
  end.

(** Every tool-call event for [index] among [events] carries [id]. *)
Definition carriesId (index : Z) (id : string)
    (events : list ResponsesStreamEvent) : Prop :=
  ∀ event id', event ∈ events → toolEventId event = Some (index, id') → id' = id.

(** The tool-call fragments of a chunk sequence, in processing order. *)
Definition chunkFragments (chunk : ChatChunk) : list ToolCallDelta :=
  flat_map (fun choice => default [] (d_tool_calls (cc_delta choice)))
    (ck_choices chunk).

Definition streamFragments (chunks : list ChatChunk) : list ToolCallDelta :=
  flat_map chunkFragments chunks.

(** The first non-empty id a fragment sequence carries for [index]. *)
Definition firstIdFor (index : Z) (fragments : list ToolCallDelta)
  : option string :=
  head (omap (fun tc =>
                if decide (tcd_index tc = index) then nonempty (tcd_id tc)
                else None) fragments).

(** The rule on the id map read literally: whatever the chunks, the
    first id seen for an index is the one the map ends up holding, and no
    event for that index carries another real id. *)
Definition firstIdSticks (chunks : list ChatChunk) : Prop :=
  ∀ index id,
    firstIdFor index (streamFragments chunks) = Some id →
    toolCallIds (translateChunks chunks initialStreamState).1 !! index
      = Some id
    ∧ ∀ event id',
        event ∈ (translateChunks chunks initialStreamState).2 →
        toolEventId event = Some (index, id') →
        id' = id ∨ id' = placeholderId index.

(** No fragment for [index] brings a non-empty id other than [id]. *)
Definition idsAgree (index : Z) (id : string)
    (fragments : list ToolCallDelta) : Prop :=
  Forall (fun tc =>
            tcd_index tc = index →
            nonempty (tcd_id tc) = None ∨ nonempty (tcd_id tc) = Some id)
    fragments.

(** The part of the stream state the reducer reads. *)
Definition sameView (s1 s2 : StreamState) : Prop :=
  sentCreated s1 = sentCreated s2 ∧ toolCallIds s1 = toolCallIds s2.

Definition httpStatus (error : Thrown) : option Z :=
  match error with
  | HTTPError status _ => Some status
  | OtherError _ => None
  end.

(** Fallback eligibility in the spec's words. *)
Definition fallbackEligible (error : Thrown) (supportsChat : bool) : Prop :=
  supportsChat = true ∧
  ∃ status, httpStatus error = Some status ∧
            (status = 400 ∨ status = 404 ∨ status = 422).

Definition isChatCall (call : UpstreamCall) : bool :=
  match call with
  | CallChatCompletions _ => true
  | CallResponses _ => false
  end.

(** The Chat-Completions endpoint was called. *)
Definition fallbackTaken (calls : list UpstreamCall) : Prop :=
  existsb isChatCall calls = true.

(** ** Sample streams *)

(** The character U+0022, to spell JSON text. *)
Definition dquote : string := String (Ascii.ascii_of_nat 34) "".

(** A chunk whose only choice carries one tool-call fragment. *)
Definition fragmentChunk (tc : ToolCallDelta) : ChatChunk :=
  mkChatChunk "chatcmpl-1" "gpt-4o" 1700000000
    [mkChunkChoice 0 (mkDelta None None (Some [tc])) None].

(** [{index:0, id:"call_1", function:{name:"foo"}}] *)
Definition toolStart : ChatChunk :=
  fragmentChunk
    (mkToolCallDelta 0 (Some "call_1")
       (Some (mkFunctionDelta (Some "foo") None))).

(** [{index:0, function:{arguments:"{\"x\":1}"}}] *)
Definition toolArguments : ChatChunk :=
  fragmentChunk
    (mkToolCallDelta 0 None
       (Some (mkFunctionDelta None
                (Some ("{" +:+ dquote +:+ "x" +:+ dquote +:+ ":1}"))))).

(** A fragment that brings another id for index 0. *)
Definition toolRenamed : ChatChunk :=
  fragmentChunk
    (mkToolCallDelta 0 (Some "call_2")
       (Some (mkFunctionDelta None (Some "{")))).

(** ** Sample requests *)

(** The body [{model, input:[{role:"user",content:"hi"}]}]. *)
Definition userHiPayload (model : string) : ResponsesPayload :=
  mkResponsesPayload model [ResponsesUserMessage (ContentText "hi")]
    None None None None None None None None None None.

(** Metadata of a model that advertises the Chat-Completions endpoint only. *)
Definition chatOnlyModel : Model :=
  mkModel "gpt-legacy" (Some ["/chat/completions"]) None.

(** The endpoints advertised for the model a payload names. *)
Definition modelEndpoints (models : option (list Model))
    (payload : ResponsesPayload) : option (list string) :=
  selectModel models payload ≫= supported_endpoints.

(** An item that marks an agent turn on its own account: an item with the
    assistant role or a function call. *)
Definition isAgentTurn (item : ResponsesInputItem) : bool :=
  match item with
  | ResponsesAssistantMessage _ _ => true
  | ResponsesMessageInput RoleAssistant _ _ => true
  | ResponsesFunctionCall _ _ _ _ => true
  | ResponsesSystemMessage _ => false
  | ResponsesDeveloperMessage _ => false
  | ResponsesUserMessage _ => false
  | ResponsesMessageInput RoleUser _ _ => false
  | ResponsesFunctionCallOutput _ _ => false
  | ResponsesItemReference _ => false
  end.

(** The content of an item when the item has a [content] field and that
    field is an array. *)
Definition arrayContent (item : ResponsesInputItem)
  : option (list ResponsesContentPart) :=
  match item with
  | ResponsesUserMessage content
  | ResponsesAssistantMessage content _
  | ResponsesMessageInput _ content _ =>
      match content with
      | ContentArray parts => Some parts
      | ContentText _ => None
      end
  | ResponsesSystemMessage _
  | ResponsesDeveloperMessage _
  | ResponsesFunctionCall _ _ _ _
  | ResponsesFunctionCallOutput _ _
  | ResponsesItemReference _ => None
  end.

(** The role of the message an input item becomes; an item reference becomes
    no message. *)
Definition itemRole (item : ResponsesInputItem) : option ChatRole :=
  match item with
  | ResponsesSystemMessage _ => Some ChatSystem
  | ResponsesDeveloperMessage _ => Some ChatDeveloper
  | ResponsesUserMessage _ => Some ChatUser
  | ResponsesAssistantMessage _ _ => Some ChatAssistant
  | ResponsesMessageInput RoleUser _ _ => Some ChatUser
  | ResponsesMessageInput RoleAssistant _ _ => Some ChatAssistant
  | ResponsesFunctionCall _ _ _ _ => Some ChatAssistant
  | ResponsesFunctionCallOutput _ _ => Some ChatTool
  | ResponsesItemReference _ => None
  end.

Definition isItemReference (item : ResponsesInputItem) : bool :=
  match item with
  | ResponsesItemReference _ => true
  | _ => false
  end.

(** The id the events of a tool-call fragment carry, in words: the id stored
    for the fragment's index before the fragment, when it is non-empty; else
    the fragment's own id, when it is non-empty; else the placeholder. *)
Definition carriedId (stored own : option string) (index : Z) : string :=
  match nonempty stored with
  | Some id => id
  | None =>
      match nonempty own with
      | Some id => id
      | None => placeholderId index
      end
  end.

(** The events of a fragment reported under [id]: the added item when the
    fragment has a non-empty function name, then the arguments delta when it
    has non-empty arguments. *)
Definition fragmentEvents (tc : ToolCallDelta) (id : string)
  : list ResponsesStreamEvent :=
  match nonempty (tcd_function tc ≫= fd_name) with
  | Some name =>
      [ResponsesOutputItemAddedEvent (tcd_index tc)
         (ResponsesOutputFunctionCall id id name "" None)]
  | None => []
  end
  ++ match nonempty (tcd_function tc ≫= fd_arguments) with
     | Some arguments =>
         [ResponsesFunctionCallArgumentsDeltaEvent id (tcd_index tc) arguments]
     | None => []
     end.

(** * Results on the request sanitizer *)

Section Sanitizer.

Implicit Types (input : list ResponsesInputItem) (ids : gset string).

Lemma collect_from_acc input ids call_id :
  call_id ∈ foldl (fun ids item =>
                     match item with
                     | ResponsesFunctionCall call_id _ _ _ => ids ∪ {[ call_id ]}
                     | _ => ids
                     end) ids input
  ↔ call_id ∈ ids ∨
    ∃ name arguments id,
      ResponsesFunctionCall call_id name arguments id ∈ input.
Proof.
  revert ids. induction input as [|item input IH]; intros ids; simpl.
  - split; [by left|]. intros [?|(?&?&?&H)]; [done|]. by apply elem_of_nil in H.
  - rewrite IH.
    assert (Hcons :
      (∃ n a k, ResponsesFunctionCall call_id n a k ∈ item :: input)
      ↔ (∃ n a k, ResponsesFunctionCall call_id n a k = item)
        ∨ ∃ n a k, ResponsesFunctionCall call_id n a k ∈ input).
    { setoid_rewrite elem_of_cons. naive_solver. }
    rewrite Hcons.
    destruct item; try (rewrite elem_of_union, elem_of_singleton);
      naive_solver.
Qed.

Lemma elem_of_collectFunctionCallIds input call_id :
  call_id ∈ collectFunctionCallIds input
  ↔ ∃ name arguments id,
      ResponsesFunctionCall call_id name arguments id ∈ input.
Proof.
  unfold collectFunctionCallIds. rewrite collect_from_acc. set_solver.
Qed.

Lemma orphans_from_acc ids input (orphans : list string) :
  foldl (fun orphans item =>
           match item with
           | ResponsesFunctionCallOutput call_id _ =>
               if decide (call_id ∈ ids) then orphans
               else orphans ++ [call_id]
           | _ => orphans
           end) orphans input = []
  ↔ orphans = [] ∧ Forall (fun item => keepItem ids item = true) input.
Proof.
  revert orphans. induction input as [|item input IH]; intros orphans; simpl.
  - split; [by intros ->|by intros [-> _]].
  - rewrite IH, Forall_cons. destruct item; simpl; try tauto.
    case_decide as Hin.
    + rewrite bool_decide_eq_true_2 by done. tauto.
    + rewrite bool_decide_eq_false_2 by done.
      split; [intros [Happ _]|intros [_ [? _]]; done].
      by destruct orphans.
Qed.

Lemma orphanOutputs_nil ids input :
  orphanOutputs ids input = []
  ↔ Forall (fun item => keepItem ids item = true) input.
Proof. unfold orphanOutputs. rewrite orphans_from_acc. tauto. Qed.

Lemma filter_all_kept {A} (f : A → bool) (l : list A) :
  Forall (fun x => f x = true) l → List.filter f l = l.
Proof.
  induction 1 as [|x l Hx _ IH]; simpl; [done|]. by rewrite Hx, IH.
Qed.

Lemma filter_sublist {A} (f : A → bool) (l : list A) :
  List.filter f l `sublist_of` l.
Proof.
  induction l as [|x l IH]; simpl; [constructor|].
  destruct (f x); by constructor.
Qed.

(** The guard on [orphanOutputs.length] does not change the result: the
    pass is the filter. *)
Lemma sanitizeInput_filter input :
  sanitizeInput input
  = List.filter (keepItem (collectFunctionCallIds input)) input.
Proof.
  unfold sanitizeInput.
  destruct (orphanOutputs _ input) as [|o os] eqn:Horph; simpl.
  - symmetry. apply filter_all_kept. by apply orphanOutputs_nil.
  - done.
Qed.

Lemma collect_filter_acc ids ids' input :
  foldl (fun ids item =>
           match item with
           | ResponsesFunctionCall call_id _ _ _ => ids ∪ {[ call_id ]}
           | _ => ids
           end) ids' (List.filter (keepItem ids) input)
  = foldl (fun ids item =>
             match item with
             | ResponsesFunctionCall call_id _ _ _ => ids ∪ {[ call_id ]}
             | _ => ids
             end) ids' input.
Proof.
  revert ids'. induction input as [|item input IH]; intros ids'; simpl; [done|].
  destruct item; simpl; try apply IH.
  destruct (bool_decide _); simpl; apply IH.
Qed.

Lemma collect_sanitizeInput input :
  collectFunctionCallIds (sanitizeInput input) = collectFunctionCallIds input.
Proof.
  rewrite sanitizeInput_filter. unfold collectFunctionCallIds.
  apply collect_filter_acc.
Qed.

Lemma filter_filter_same {A} (f : A → bool) (l : list A) :
  List.filter f (List.filter f l) = List.filter f l.
Proof.
  induction l as [|x l IH]; simpl; [done|].
  destruct (f x) eqn:Hx; simpl; [by rewrite Hx, IH|done].
Qed.

Lemma filter_keeps_others ids input :
  List.filter (fun item => negb (isFunctionCallOutput item))
    (List.filter (keepItem ids) input)
  = List.filter (fun item => negb (isFunctionCallOutput item)) input.
Proof.
  induction input as [|item input IH]; simpl; [done|].
  destruct item; simpl; rewrite ?IH; try done.
  destruct (bool_decide _); simpl; done.
Qed.

(** C2, as stated, fails: an output placed before its own call survives
    the pass, so a surviving output need not have an earlier matching call in
    the result. *)
Lemma output_before_its_call_survives :
  ¬ precededByCall
      (sanitizeInput
         [ResponsesFunctionCallOutput "call_1" (ContentText "42");
          ResponsesFunctionCall "call_1" "lookup" "{}" None]).
Proof.
  intros Hpre.
  destruct (Hpre 0%nat "call_1" (ContentText "42")) as (j & ? & ? & ? & Hlt & _).
  - by vm_compute.
  - lia.
Qed.

(** On that input the pass removes nothing. *)
Example output_before_its_call_unchanged :
  sanitizeInput
    [ResponsesFunctionCallOutput "call_1" (ContentText "42");
     ResponsesFunctionCall "call_1" "lookup" "{}" None]
  = [ResponsesFunctionCallOutput "call_1" (ContentText "42");
     ResponsesFunctionCall "call_1" "lookup" "{}" None].
Proof. by vm_compute. Qed.

(** C2 (amended): after the orphan pass every surviving function-call output
    has a function call with the same call_id somewhere in the result (before
    or after it); the result is a subsequence of the input, so the relative
    order of survivors is preserved; and the items that are not function-call
    outputs are all kept. *)
Theorem sanitizeInput_matched input :
  (∀ call_id output,
     ResponsesFunctionCallOutput call_id output ∈ sanitizeInput input →
     ∃ name arguments id,
       ResponsesFunctionCall call_id name arguments id ∈ sanitizeInput input)
  ∧ sanitizeInput input `sublist_of` input
  ∧ List.filter (fun item => negb (isFunctionCallOutput item))
      (sanitizeInput input)
    = List.filter (fun item => negb (isFunctionCallOutput item)) input.
Proof.
  split; [|split].
  - intros call_id output Hin.
    apply elem_of_collectFunctionCallIds. rewrite collect_sanitizeInput.
    rewrite sanitizeInput_filter in Hin.
    apply list_elem_of_In, filter_In in Hin as [_ Hkeep].
    simpl in Hkeep. by apply bool_decide_eq_true in Hkeep.
  - rewrite sanitizeInput_filter. apply filter_sublist.
  - rewrite sanitizeInput_filter. apply filter_keeps_others.
Qed.

(** Non-vacuity of the amended C2 on a history with one orphan: the matched
    output stays, and its call is found in the result. *)
Lemma sanitizeInput_matched_witness :
  ∃ name arguments id,
    ResponsesFunctionCall "call_1" name arguments id
    ∈ sanitizeInput
        [ResponsesUserMessage (ContentText "hi");
         ResponsesFunctionCallOutput "call_0" (ContentText "stale");
         ResponsesFunctionCall "call_1" "lookup" "{}" None;
         ResponsesFunctionCallOutput "call_1" (ContentText "42")].
Proof.
  apply (proj1 (sanitizeInput_matched _) "call_1" (ContentText "42")).
  vm_compute. do 2 apply list_elem_of_further. apply list_elem_of_here.
Defined.

(** C10: the orphan pass keeps the set of valid call_ids, is idempotent, and
    leaves an input without orphan outputs unchanged. *)
Theorem sanitizeInput_idempotent input :
  collectFunctionCallIds (sanitizeInput input) = collectFunctionCallIds input
  ∧ sanitizeInput (sanitizeInput input) = sanitizeInput input
  ∧ ((∀ call_id output,
        ResponsesFunctionCallOutput call_id output ∈ input →
        ∃ name arguments id,
          ResponsesFunctionCall call_id name arguments id ∈ input) →
     sanitizeInput input = input).
Proof.
  split; [|split].
  - apply collect_sanitizeInput.
  - rewrite (sanitizeInput_filter (sanitizeInput input)), collect_sanitizeInput.
    rewrite sanitizeInput_filter. apply filter_filter_same.
  - intros Hmatched. rewrite sanitizeInput_filter. apply filter_all_kept.
    apply Forall_forall. intros item Hin.
    destruct item; simpl; try done.
    apply bool_decide_eq_true, elem_of_collectFunctionCallIds. eauto.
Qed.

(** Non-vacuity of the last part of C10: a history whose only output answers
    a call of the same history passes through unchanged. *)
Lemma sanitizeInput_idempotent_witness :
  sanitizeInput
    [ResponsesUserMessage (ContentText "hi");
     ResponsesFunctionCall "call_1" "lookup" "{}" None;
     ResponsesFunctionCallOutput "call_1" (ContentText "42")]
  = [ResponsesUserMessage (ContentText "hi");
     ResponsesFunctionCall "call_1" "lookup" "{}" None;
     ResponsesFunctionCallOutput "call_1" (ContentText "42")].
Proof.
  apply (proj2 (proj2 (sanitizeInput_idempotent _))).
  intros call_id output Hin.
  repeat (apply elem_of_cons in Hin as [Heq|Hin]; [try discriminate Heq|]).
  - injection Heq as -> _. do 3 eexists.
    apply list_elem_of_further, list_elem_of_here.
  - by apply elem_of_nil in Hin.
Defined.

End Sanitizer.

(** * Results on the translator *)

Section Translation.

Lemma length_positive {A} (l : list A) :
  (0 <? Z.of_nat (length l)) = match l with [] => false | _ => true end.
Proof. destruct l; simpl; [done|]. apply Z.ltb_lt. lia. Qed.

(** With no text part left to meet, the loop ends with the images collected
    so far followed by those still to come. *)
Lemma contentPartsLoop_no_text content parts :
  Forall (fun part => partText part = None) content →
  contentPartsLoop content parts
  = match parts ++ imageParts content with
    | [] => ContentNull
    | image :: images => ContentParts (image :: images)
    end.
Proof.
  intros Hnotext. revert parts.
  induction Hnotext as [|part content Hpart _ IH]; intros parts; simpl.
  - rewrite length_positive, app_nil_r. by destruct parts.
  - destruct part; simpl in *; try discriminate Hpart.
    + rewrite IH, <- app_assoc. done.
    + apply IH.
Qed.

(** The first text part met ends the loop, whatever was collected. *)
Lemma contentPartsLoop_first_text before part after text parts :
  Forall (fun part => partText part = None) before →
  partText part = Some text →
  contentPartsLoop (before ++ part :: after) parts = ContentString text.
Proof.
  intros Hnotext Htext. revert parts.
  induction Hnotext as [|p before Hp _ IH]; intros parts; simpl.
  - destruct part; simpl in Htext; by simplify_eq.
  - destruct p; simpl in Hp; try discriminate Hp; apply IH.
Qed.

(** C7: content reduction.  A string is kept unless it is empty; in an array
    the first text part gives the scalar content and everything else is
    discarded; without a text part the images are projected in order and the
    files dropped; the empty string and an array that yields no part give
    the no-content marker, which is not the empty string. *)
Theorem content_reduction :
  translateResponsesContentToChatContent (ContentText "") = ContentNull
  ∧ (∀ s, s ≠ "" →
       translateResponsesContentToChatContent (ContentText s)
       = ContentString s)
  ∧ (∀ before part after text,
       Forall (fun part => partText part = None) before →
       partText part = Some text →
       translateResponsesContentToChatContent
         (ContentArray (before ++ part :: after))
       = ContentString text)
  ∧ (∀ content,
       Forall (fun part => partText part = None) content →
       translateResponsesContentToChatContent (ContentArray content)
       = match imageParts content with
         | [] => ContentNull
         | image :: images => ContentParts (image :: images)
         end)
  ∧ ContentNull ≠ ContentString "".
Proof.
  repeat split.
  - intros s Hs. simpl. by rewrite decide_False.
  - intros before part after text. apply contentPartsLoop_first_text.
  - intros content Hnotext. simpl.
    by rewrite contentPartsLoop_no_text.
  - discriminate.
Qed.

(** The three array cases of C7 on concrete content: an image before the
    first text part is lost, later parts are ignored, files vanish. *)
Lemma content_reduction_witness :
  translateResponsesContentToChatContent
    (ContentArray
       [ResponsesInputImage "https://example.org/a.png" None;
        ResponsesOutputText "first";
        ResponsesInputText "second"])
  = ContentString "first"
  ∧ translateResponsesContentToChatContent
      (ContentArray
         [ResponsesInputFile None (Some "notes.txt") None None;
          ResponsesInputImage "https://example.org/a.png" (Some DetailLow);
          ResponsesInputImage "https://example.org/b.png" None])
    = ContentParts
        [ImageUrlPart "https://example.org/a.png" (Some DetailLow);
         ImageUrlPart "https://example.org/b.png" None]
  ∧ translateResponsesContentToChatContent
      (ContentArray [ResponsesInputFile None (Some "notes.txt") None None])
    = ContentNull.
Proof.
  destruct content_reduction as (_ & _ & Htext & Himages & _).
  split; [|split].
  - apply (Htext [ResponsesInputImage "https://example.org/a.png" None]
                 (ResponsesOutputText "first")
                 [ResponsesInputText "second"] "first").
    + repeat constructor.
    + reflexivity.
  - apply (Himages
             [ResponsesInputFile None (Some "notes.txt") None None;
              ResponsesInputImage "https://example.org/a.png" (Some DetailLow);
              ResponsesInputImage "https://example.org/b.png" None]).
    repeat constructor.
  - apply (Himages [ResponsesInputFile None (Some "notes.txt") None None]).
    repeat constructor.
Defined.

(** The inner loop over the tool calls of one choice. *)
Lemma push_tool_calls (output : list ResponsesOutputItem)
    (tool_calls : list ToolCall) :
  foldl (fun output toolCall =>
           output ++
           [ResponsesOutputFunctionCall (tc_id toolCall) (tc_id toolCall)
              (tc_name toolCall) (tc_arguments toolCall) (Some "completed")])
    output tool_calls
  = output ++
    ((fun toolCall =>
        ResponsesOutputFunctionCall (tc_id toolCall) (tc_id toolCall)
          (tc_name toolCall) (tc_arguments toolCall) (Some "completed"))
       <$> tool_calls).
Proof.
  revert output. induction tool_calls as [|toolCall tool_calls IH];
    intros output; simpl.
  - by rewrite app_nil_r.
  - rewrite IH, <- app_assoc. done.
Qed.

Lemma pushChoice_choiceOutput responseId output choice :
  pushChoice responseId output choice
  = output ++ choiceOutput responseId choice.
Proof.
  unfold pushChoice, choiceOutput.
  destruct (rm_tool_calls (ch_message choice)) as [tool_calls|]; simpl.
  - rewrite length_positive.
    destruct tool_calls as [|toolCall tool_calls].
    + simpl. destruct (nonempty _); simpl; by rewrite ?app_nil_r.
    + rewrite push_tool_calls.
      destruct (nonempty _); simpl; by rewrite <- ?app_assoc.
  - destruct (nonempty _); simpl; by rewrite ?app_nil_r.
Qed.

Lemma push_choices responseId output choices :
  foldl (pushChoice responseId) output choices
  = output ++ flat_map (choiceOutput responseId) choices.
Proof.
  revert output. induction choices as [|choice choices IH];
    intros output; simpl.
  - by rewrite app_nil_r.
  - rewrite IH, pushChoice_choiceOutput, <- app_assoc. done.
Qed.

Lemma output_by_choice chatResponse :
  rr_output (translateChatResponseToResponses chatResponse)
  = flat_map (choiceOutput (cr_id chatResponse)) (cr_choices chatResponse).
Proof. simpl. by rewrite push_choices. Qed.

Lemma choiceOutput_completed responseId choice :
  Forall (fun item => itemStatus item = Some "completed")
    (choiceOutput responseId choice).
Proof.
  unfold choiceOutput. apply Forall_app. split.
  - destruct (nonempty _); repeat constructor.
  - apply Forall_fmap, Forall_forall. by intros toolCall _.
Qed.

Lemma output_completed chatResponse :
  Forall (fun item => itemStatus item = Some "completed")
    (rr_output (translateChatResponseToResponses chatResponse)).
Proof.
  rewrite output_by_choice.
  induction (cr_choices chatResponse) as [|choice choices IH]; simpl.
  - constructor.
  - apply Forall_app. split; [apply choiceOutput_completed|apply IH].
Qed.

(** C4: the output of the non-streaming translation is, choice by choice,
    the optional assistant message (present exactly when the content is
    non-empty) followed by one function call per tool call, each marked
    "completed"; one text choice with one tool call gives one message then
    one function call; the usage counters are renamed. *)
Theorem chat_response_output chatResponse :
  rr_output (translateChatResponseToResponses chatResponse)
  = flat_map (choiceOutput (cr_id chatResponse)) (cr_choices chatResponse)
  ∧ Forall (fun item => itemStatus item = Some "completed")
      (rr_output (translateChatResponseToResponses chatResponse))
  ∧ rr_usage (translateChatResponseToResponses chatResponse)
    = ((fun usage =>
          mkResponsesUsage (prompt_tokens usage) (completion_tokens usage)
            (Some (chat_total_tokens usage)))
         <$> cr_usage chatResponse)
  ∧ (∀ index text toolCall finish_reason,
       text ≠ "" →
       cr_choices chatResponse
       = [mkChoice index (mkResponseMessage (Some text) (Some [toolCall]))
            finish_reason] →
       rr_output (translateChatResponseToResponses chatResponse)
       = [ResponsesOutputMessage
            ("msg_" +:+ cr_id chatResponse +:+ "_" +:+ pretty index)
            [ResponsesOutputText text] (Some "completed");
          ResponsesOutputFunctionCall (tc_id toolCall) (tc_id toolCall)
            (tc_name toolCall) (tc_arguments toolCall) (Some "completed")]).
Proof.
  split; [apply output_by_choice|].
  split; [apply output_completed|].
  split; [simpl; by destruct (cr_usage chatResponse)|].
  intros index text toolCall finish_reason Htext Hchoices.
  rewrite output_by_choice, Hchoices. unfold choiceOutput. simpl.
  by rewrite decide_False.
Qed.

(** The round trip of C4 on a concrete reply: text "hello" and one call. *)
Lemma chat_response_output_witness :
  rr_output
    (translateChatResponseToResponses
       (mkChatCompletionResponse "chatcmpl-7" 1700000000 "gpt-4o"
          [mkChoice 0
             (mkResponseMessage (Some "hello")
                (Some [mkToolCall "call_1" "lookup" "{}"]))
             (Some "tool_calls")]
          (Some (mkChatUsage 11 5 16))))
  = [ResponsesOutputMessage "msg_chatcmpl-7_0" [ResponsesOutputText "hello"]
       (Some "completed");
     ResponsesOutputFunctionCall "call_1" "call_1" "lookup" "{}"
       (Some "completed")].
Proof.
  apply (proj2 (proj2 (proj2
           (chat_response_output
              (mkChatCompletionResponse "chatcmpl-7" 1700000000 "gpt-4o"
                 [mkChoice 0
                    (mkResponseMessage (Some "hello")
                       (Some [mkToolCall "call_1" "lookup" "{}"]))
                    (Some "tool_calls")]
                 (Some (mkChatUsage 11 5 16))))))
           0 "hello" (mkToolCall "call_1" "lookup" "{}") (Some "tool_calls")).
  - discriminate.
  - reflexivity.
Defined.

End Translation.

(** * Results on the streaming event reducer *)

Section Reducer.

Implicit Types (state st : StreamState) (events : list ResponsesStreamEvent).

Lemma forEach_cons {A} (body : A → StreamState → _) x xs st :
  forEach body (x :: xs) st
  = ((forEach body xs (body x st).1).1,
     (body x st).2 ++ (forEach body xs (body x st).1).2).
Proof.
  simpl. destruct (body x st) as [st1 ev1]; simpl.
  by destruct (forEach body xs st1).
Qed.

(** Loop rule: an invariant [I] of the state and a property [P] of the
    pushed events carry over from the body to the loop, for the elements
    that satisfy [Q]. *)
Lemma forEach_invariant {A} (I : StreamState → Prop)
    (P : ResponsesStreamEvent → Prop) (Q : A → Prop)
    (body : A → StreamState → _) xs st :
  (∀ x st, Q x → I st → I (body x st).1 ∧ Forall P (body x st).2) →
  Forall Q xs → I st →
  I (forEach body xs st).1 ∧ Forall P (forEach body xs st).2.
Proof.
  intros Hbody HQ. revert st.
  induction HQ as [|x xs Hx _ IH]; intros st Hst.
  - simpl. by split.
  - rewrite forEach_cons. simpl.
    destruct (Hbody x st Hx Hst) as [Hst1 Hev1].
    destruct (IH _ Hst1) as [Hst2 Hev2].
    split; [done|]. by apply Forall_app.
Qed.

Lemma forEach_events {A} (P : ResponsesStreamEvent → Prop)
    (body : A → StreamState → _) xs st :
  (∀ x st, Forall P (body x st).2) → Forall P (forEach body xs st).2.
Proof.
  intros Hbody.
  destruct (forEach_invariant (fun _ => True) P (fun _ => True) body xs st)
    as [_ Hevents]; try done.
  by apply Forall_forall.
Qed.

(** Loop rule for two runs started from states with the same view. *)
Lemma forEach_sameView {A} (body : A → StreamState → _) xs s1 s2 :
  (∀ x s1 s2, sameView s1 s2 →
     sameView (body x s1).1 (body x s2).1 ∧ (body x s1).2 = (body x s2).2) →
  sameView s1 s2 →
  sameView (forEach body xs s1).1 (forEach body xs s2).1
  ∧ (forEach body xs s1).2 = (forEach body xs s2).2.
Proof.
  intros Hbody. revert s1 s2.
  induction xs as [|x xs IH]; intros s1 s2 Hview; [done|].
  rewrite !forEach_cons. simpl.
  destruct (Hbody x s1 s2 Hview) as [Hview1 Hev1].
  destruct (IH _ _ Hview1) as [Hview2 Hev2].
  split; [done|]. by rewrite Hev1, Hev2.
Qed.

(** *** The three bodies in projection form *)

Lemma translateToolCallDelta_state tc st :
  sentCreated (translateToolCallDelta tc st).1 = sentCreated st
  ∧ toolCallIds (translateToolCallDelta tc st).1
    = match nonempty (tcd_id tc) with
      | Some id => <[tcd_index tc := id]> (toolCallIds st)
      | None => toolCallIds st
      end.
Proof. unfold translateToolCallDelta. simpl. by destruct (nonempty _). Qed.

(** Every event of a fragment is a tool-call event for the fragment's index
    and carries the id picked for the fragment. *)
Lemma translateToolCallDelta_events tc st :
  Forall (fun event =>
            toolEventId event
            = Some (tcd_index tc,
                    js_or_default
                      (js_or (toolCallIds st !! tcd_index tc) (tcd_id tc))
                      (placeholderId (tcd_index tc))))
    (translateToolCallDelta tc st).2.
Proof.
  unfold translateToolCallDelta. simpl. apply Forall_app. split.
  - destruct (nonempty (_ ≫= fd_name)); repeat constructor.
  - destruct (nonempty (_ ≫= fd_arguments)); repeat constructor.
Qed.

Lemma translateChunkChoice_eq chunk choice st :
  translateChunkChoice chunk choice st
  = let tools :=
      match d_tool_calls (cc_delta choice) with
      | Some tool_calls => forEach translateToolCallDelta tool_calls st
      | None => (st, [])
      end in
    (tools.1,
     match nonempty (d_content (cc_delta choice)) with
     | Some content =>
         [ResponsesOutputTextDeltaEvent
            ("msg_" +:+ ck_id chunk +:+ "_" +:+ pretty (cc_index choice))
            (cc_index choice) content]
     | None => []
     end
     ++ tools.2
     ++ match nonempty (cc_finish_reason choice) with
        | Some _ => [ResponsesCompletedEvent (ck_id chunk) "completed" None]
        | None => []
        end).
Proof.
  unfold translateChunkChoice. simpl.
  by destruct (match d_tool_calls _ with Some _ => _ | None => _ end).
Qed.

Lemma translateChatChunkToResponsesEvents_eq chunk st :
  translateChatChunkToResponsesEvents chunk st
  = let st0 :=
      if sentCreated st then st
      else mkStreamState (ck_id chunk) true (currentItemIndex st)
             (toolCallIds st) in
    let choices :=
      forEach (translateChunkChoice chunk) (ck_choices chunk) st0 in
    (choices.1,
     (if sentCreated st then []
      else [ResponsesCreatedEvent (ck_id chunk) (ck_created chunk)
              (ck_model chunk)])
     ++ choices.2).
Proof.
  unfold translateChatChunkToResponsesEvents.
  destruct (sentCreated st); simpl;
    by destruct (forEach (translateChunkChoice chunk) _ _).
Qed.

(** *** Statuses *)

Lemma tool_event_completedStatusOk event x :
  toolEventId event = Some x → completedStatusOk event.
Proof. by destruct event. Qed.

Lemma choice_events_completed chunk choice st :
  Forall completedStatusOk (translateChunkChoice chunk choice st).2.
Proof.
  rewrite translateChunkChoice_eq. simpl. repeat (apply Forall_app; split).
  - destruct (nonempty (d_content _)); repeat constructor.
  - destruct (d_tool_calls _) as [tool_calls|]; [|constructor].
    apply forEach_events. intros tc st'.
    eapply Forall_impl; [apply translateToolCallDelta_events|].
    intros event. apply tool_event_completedStatusOk.
  - destruct (nonempty (cc_finish_reason _)); repeat constructor.
Qed.

Lemma chunk_events_completed chunk st :
  Forall completedStatusOk (translateChatChunkToResponsesEvents chunk st).2.
Proof.
  rewrite translateChatChunkToResponsesEvents_eq. simpl.
  apply Forall_app. split.
  - destruct (sentCreated st); repeat constructor.
  - apply forEach_events. intros choice st'. apply choice_events_completed.
Qed.

(** The events of one element of a loop are among the events of the loop. *)
Lemma forEach_elem {A} (body : A → StreamState → _) x xs st :
  x ∈ xs →
  ∃ st', ∀ event, event ∈ (body x st').2 → event ∈ (forEach body xs st).2.
Proof.
  intros Hin. revert st.
  induction Hin as [x xs|x y xs _ IH]; intros st.
  - exists st. intros event Hevent. rewrite forEach_cons. simpl.
    apply elem_of_app. by left.
  - destruct (IH (body y st).1) as [st' Hst']. exists st'.
    intros event Hevent. rewrite forEach_cons. simpl.
    apply elem_of_app. right. by apply Hst'.
Qed.

Lemma finished_choice_completed chunk st choice :
  choice ∈ ck_choices chunk →
  truthy (cc_finish_reason choice) = true →
  ResponsesCompletedEvent (ck_id chunk) "completed" None
  ∈ (translateChatChunkToResponsesEvents chunk st).2.
Proof.
  intros Hin Hfinish.
  rewrite translateChatChunkToResponsesEvents_eq. simpl.
  apply elem_of_app. right.
  destruct (forEach_elem (translateChunkChoice chunk) choice
              (ck_choices chunk)
              (if sentCreated st then st
               else mkStreamState (ck_id chunk) true (currentItemIndex st)
                      (toolCallIds st)) Hin) as [st' Hst'].
  apply Hst'. rewrite translateChunkChoice_eq. simpl.
  rewrite !elem_of_app. right. right.
  unfold truthy, nonempty in *.
  destruct (cc_finish_reason choice) as [reason|]; [|done].
  destruct (decide (reason = "")); [done|]. apply list_elem_of_here.
Qed.

(** C9: on the fallback path the reported status is always "completed".
    The translated response has top-level status completed and every output
    item is marked "completed", whatever the finish reasons of the choices;
    every response.completed event of the reducer carries "completed", and a
    choice that finishes for any reason (stop, length, tool_calls, ...)
    produces exactly that event. *)
Theorem fallback_status_completed :
  (∀ chatResponse,
     rr_status (translateChatResponseToResponses chatResponse)
     = Some StatusCompleted
     ∧ Forall (fun item => itemStatus item = Some "completed")
         (rr_output (translateChatResponseToResponses chatResponse)))
  ∧ (∀ chunks st, Forall completedStatusOk (translateChunks chunks st).2)
  ∧ (∀ chunk st choice,
       choice ∈ ck_choices chunk →
       truthy (cc_finish_reason choice) = true →
       ResponsesCompletedEvent (ck_id chunk) "completed" None
       ∈ (translateChatChunkToResponsesEvents chunk st).2).
Proof.
  split; [|split].
  - intros chatResponse. split; [done|apply output_completed].
  - intros chunks st. apply forEach_events. apply chunk_events_completed.
  - apply finished_choice_completed.
Qed.

(** A choice cut off by the token limit still yields status "completed". *)
Lemma fallback_status_completed_witness :
  ResponsesCompletedEvent "chatcmpl-7" "completed" None
  ∈ (translateChatChunkToResponsesEvents
       (mkChatChunk "chatcmpl-7" "gpt-4o" 1700000000
          [mkChunkChoice 0 (mkDelta None None None) (Some "length")])
       initialStreamState).2.
Proof.
  apply (proj2 (proj2 fallback_status_completed)
           (mkChatChunk "chatcmpl-7" "gpt-4o" 1700000000
              [mkChunkChoice 0 (mkDelta None None None) (Some "length")])
           initialStreamState
           (mkChunkChoice 0 (mkDelta None None None) (Some "length"))).
  - apply list_elem_of_here.
  - reflexivity.
Defined.

(** *** The created latch *)

Lemma countCreated_app events events' :
  countCreated (events ++ events')
  = (countCreated events + countCreated events')%nat.
Proof. unfold countCreated. by rewrite List.filter_app, length_app. Qed.

Lemma countCreated_cons event events :
  countCreated (event :: events)
  = ((if isCreated event then 1 else 0) + countCreated events)%nat.
Proof. unfold countCreated. simpl. by destruct (isCreated event). Qed.

Lemma countCreated_none events :
  Forall (fun event => isCreated event = false) events →
  countCreated events = 0%nat.
Proof.
  unfold countCreated. induction 1 as [|event events Hevent _ IH]; simpl.
  - done.
  - by rewrite Hevent.
Qed.

Lemma tool_event_not_created event x :
  toolEventId event = Some x → isCreated event = false.
Proof. by destruct event. Qed.

(** The loops over tool calls and choices neither touch the latch nor push
    a created event. *)
Lemma tool_calls_keep_latch tool_calls st :
  sentCreated (forEach translateToolCallDelta tool_calls st).1 = sentCreated st
  ∧ Forall (fun event => isCreated event = false)
      (forEach translateToolCallDelta tool_calls st).2.
Proof.
  apply (forEach_invariant
           (fun st' => sentCreated st' = sentCreated st)
           (fun event => isCreated event = false) (fun _ => True));
    [|by apply Forall_forall|done].
  intros tc st' _ Hst'. split.
  - by rewrite (proj1 (translateToolCallDelta_state tc st')).
  - eapply Forall_impl; [apply translateToolCallDelta_events|].
    intros event. apply tool_event_not_created.
Qed.

Lemma choice_keeps_latch chunk choice st :
  sentCreated (translateChunkChoice chunk choice st).1 = sentCreated st
  ∧ Forall (fun event => isCreated event = false)
      (translateChunkChoice chunk choice st).2.
Proof.
  rewrite translateChunkChoice_eq. simpl.
  destruct (d_tool_calls _) as [tool_calls|]; simpl.
  - destruct (tool_calls_keep_latch tool_calls st) as [Hst Hevents].
    split; [done|]. repeat (apply Forall_app; split); [|done|].
    + destruct (nonempty (d_content _)); repeat constructor.
    + destruct (nonempty (cc_finish_reason _)); repeat constructor.
  - split; [done|]. apply Forall_app. split.
    + destruct (nonempty (d_content _)); repeat constructor.
    + destruct (nonempty (cc_finish_reason _)); repeat constructor.
Qed.

Lemma choices_keep_latch chunk choices st :
  sentCreated (forEach (translateChunkChoice chunk) choices st).1
  = sentCreated st
  ∧ Forall (fun event => isCreated event = false)
      (forEach (translateChunkChoice chunk) choices st).2.
Proof.
  apply (forEach_invariant
           (fun st' => sentCreated st' = sentCreated st)
           (fun event => isCreated event = false) (fun _ => True));
    [|by apply Forall_forall|done].
  intros choice st' _ Hst'.
  destruct (choice_keeps_latch chunk choice st') as [Hlatch Hevents].
  split; [congruence|done].
Qed.

(** Once the latch is set a chunk pushes no created event and leaves the
    latch set. *)
Lemma chunk_after_latch chunk st :
  sentCreated st = true →
  sentCreated (translateChatChunkToResponsesEvents chunk st).1 = true
  ∧ Forall (fun event => isCreated event = false)
      (translateChatChunkToResponsesEvents chunk st).2.
Proof.
  intros Hst. rewrite translateChatChunkToResponsesEvents_eq. simpl.
  rewrite Hst. simpl.
  destruct (choices_keep_latch chunk (ck_choices chunk) st) as [Hlatch Hev].
  split; [congruence|done].
Qed.

Lemma chunks_after_latch chunks st :
  sentCreated st = true →
  Forall (fun event => isCreated event = false) (translateChunks chunks st).2.
Proof.
  intros Hst.
  apply (forEach_invariant (fun st' => sentCreated st' = true)
           (fun event => isCreated event = false) (fun _ => True)
           translateChatChunkToResponsesEvents chunks st);
    [|by apply Forall_forall|done].
  intros chunk st' _. apply chunk_after_latch.
Qed.

(** A chunk met with the latch open pushes the created event first, nothing
    else of that kind, and sets the latch. *)
Lemma chunk_sets_latch chunk st :
  sentCreated st = false →
  sentCreated (translateChatChunkToResponsesEvents chunk st).1 = true
  ∧ ∃ rest,
      (translateChatChunkToResponsesEvents chunk st).2
      = ResponsesCreatedEvent (ck_id chunk) (ck_created chunk) (ck_model chunk)
        :: rest
      ∧ Forall (fun event => isCreated event = false) rest.
Proof.
  intros Hst. rewrite translateChatChunkToResponsesEvents_eq. simpl.
  rewrite Hst. simpl.
  destruct (choices_keep_latch chunk (ck_choices chunk)
              (mkStreamState (ck_id chunk) true (currentItemIndex st)
                 (toolCallIds st))) as [Hlatch Hev].
  split; [done|]. eexists. split; [done|done].
Qed.

(** C5: fed to a state whose latch is open (as the state built at stream
    start is), a sequence of one or more chunks produces exactly one
    response.created event: it is the first event of the first chunk, it
    carries that chunk's id, timestamp and model, and no later chunk produces
    another. *)
Theorem created_exactly_once st chunk chunks :
  sentCreated st = false →
  (∃ rest,
     (translateChunks (chunk :: chunks) st).2
     = ResponsesCreatedEvent (ck_id chunk) (ck_created chunk) (ck_model chunk)
       :: rest
     ∧ Forall (fun event => isCreated event = false) rest)
  ∧ countCreated (translateChunks (chunk :: chunks) st).2 = 1%nat
  ∧ countCreated
      (translateChunks chunks
         (translateChatChunkToResponsesEvents chunk st).1).2 = 0%nat.
Proof.
  intros Hst. unfold translateChunks. rewrite forEach_cons. simpl.
  destruct (chunk_sets_latch chunk st Hst) as (Hlatch & rest & -> & Hrest).
  pose proof (chunks_after_latch chunks _ Hlatch) as Hlater.
  unfold translateChunks in Hlater.
  split; [|split].
  - eexists. split; [done|]. by apply Forall_app.
  - rewrite countCreated_app, countCreated_cons,
      (countCreated_none rest Hrest), (countCreated_none _ Hlater). done.
  - by apply countCreated_none.
Qed.

(** *** Independence from the rest of the state *)

Lemma tool_call_sameView tc s1 s2 :
  sameView s1 s2 →
  sameView (translateToolCallDelta tc s1).1 (translateToolCallDelta tc s2).1
  ∧ (translateToolCallDelta tc s1).2 = (translateToolCallDelta tc s2).2.
Proof.
  intros [Hlatch Hids]. unfold sameView, translateToolCallDelta. simpl.
  rewrite Hids. destruct (nonempty (tcd_id tc)); simpl; by rewrite ?Hids.
Qed.

Lemma choice_sameView chunk choice s1 s2 :
  sameView s1 s2 →
  sameView (translateChunkChoice chunk choice s1).1
    (translateChunkChoice chunk choice s2).1
  ∧ (translateChunkChoice chunk choice s1).2
    = (translateChunkChoice chunk choice s2).2.
Proof.
  intros Hview. rewrite !translateChunkChoice_eq. simpl.
  destruct (d_tool_calls _) as [tool_calls|]; simpl; [|done].
  destruct (forEach_sameView translateToolCallDelta tool_calls s1 s2
              tool_call_sameView Hview) as [Hview' ->].
  done.
Qed.

Lemma chunk_sameView chunk s1 s2 :
  sameView s1 s2 →
  sameView (translateChatChunkToResponsesEvents chunk s1).1
    (translateChatChunkToResponsesEvents chunk s2).1
  ∧ (translateChatChunkToResponsesEvents chunk s1).2
    = (translateChatChunkToResponsesEvents chunk s2).2.
Proof.
  intros Hview. rewrite !translateChatChunkToResponsesEvents_eq. simpl.
  destruct Hview as [Hlatch Hids]. rewrite <- Hlatch.
  destruct (forEach_sameView (translateChunkChoice chunk) (ck_choices chunk)
              (if sentCreated s1 then s1
               else mkStreamState (ck_id chunk) true (currentItemIndex s1)
                      (toolCallIds s1))
              (if sentCreated s1 then s2
               else mkStreamState (ck_id chunk) true (currentItemIndex s2)
                      (toolCallIds s2))
              (choice_sameView chunk)) as [Hview' ->].
  - destruct (sentCreated s1) eqn:Hs1; split; simpl; congruence.
  - done.
Qed.

(** C8: the reducer is deterministic.  The events depend on the chunks and
    on two fields of the state only, the latch and the id map; two states
    that agree on them (in particular two states freshly built at stream
    start) yield the same event sequence for the same chunk sequence. *)
Theorem reducer_deterministic chunks s1 s2 :
  sentCreated s1 = sentCreated s2 →
  toolCallIds s1 = toolCallIds s2 →
  (translateChunks chunks s1).2 = (translateChunks chunks s2).2.
Proof.
  intros Hlatch Hids.
  apply (forEach_sameView translateChatChunkToResponsesEvents chunks s1 s2
           chunk_sameView).
  by split.
Qed.

(** Concrete run for C5: three chunks, one created event. *)
Lemma created_exactly_once_witness :
  countCreated
    (translateChunks [toolStart; toolArguments; toolArguments]
       initialStreamState).2 = 1%nat.
Proof.
  apply (created_exactly_once initialStreamState toolStart
           [toolArguments; toolArguments]).
  reflexivity.
Defined.

(** Concrete run for C8: the state built at stream start and a state that
    differs from it in the fields the reducer does not read. *)
Lemma reducer_deterministic_witness :
  (translateChunks [toolStart; toolArguments] initialStreamState).2
  = (translateChunks [toolStart; toolArguments]
       (mkStreamState "resp_9" false 4 ∅)).2.
Proof.
  apply (reducer_deterministic [toolStart; toolArguments] initialStreamState
           (mkStreamState "resp_9" false 4 ∅)); reflexivity.
Defined.

(** *** Tool-call ids *)

(** The scenario of the specification: the id of the first fragment is used
    for the added item and for the later arguments delta. *)
Example tool_call_scenario :
  (translateChunks [toolStart; toolArguments] initialStreamState).2
  = [ResponsesCreatedEvent "chatcmpl-1" 1700000000 "gpt-4o";
     ResponsesOutputItemAddedEvent 0
       (ResponsesOutputFunctionCall "call_1" "call_1" "foo" "" None);
     ResponsesFunctionCallArgumentsDeltaEvent "call_1" 0
       ("{" +:+ dquote +:+ "x" +:+ dquote +:+ ":1}")].
Proof. by vm_compute. Qed.

(** C6, as stated, fails: when a later fragment brings another id for the
    same index the map forgets the first id, and the events that follow
    carry the new one. *)
Lemma later_id_replaces_first :
  ¬ firstIdSticks [toolStart; toolRenamed; toolArguments].
Proof.
  intros Hsticks. destruct (Hsticks 0 "call_1") as [Hmap _].
  - by vm_compute.
  - vm_compute in Hmap. discriminate Hmap.
Qed.

(** The events of that run: the added item and the first arguments delta
    carry "call_1", the last arguments delta carries "call_2". *)
Example later_id_events :
  (translateChunks [toolStart; toolRenamed; toolArguments]
     initialStreamState).2
  = [ResponsesCreatedEvent "chatcmpl-1" 1700000000 "gpt-4o";
     ResponsesOutputItemAddedEvent 0
       (ResponsesOutputFunctionCall "call_1" "call_1" "foo" "" None);
     ResponsesFunctionCallArgumentsDeltaEvent "call_1" 0 "{";
     ResponsesFunctionCallArgumentsDeltaEvent "call_2" 0
       ("{" +:+ dquote +:+ "x" +:+ dquote +:+ ":1}")].
Proof. by vm_compute. Qed.

Lemma js_or_default_stored id other placeholder :
  id ≠ "" → js_or_default (js_or (Some id) other) placeholder = id.
Proof.
  intros Hid. unfold js_or, js_or_default, truthy, nonempty.
  by rewrite !decide_False.
Qed.

Lemma js_or_default_absent (own : option string) placeholder :
  js_or_default (js_or None own) placeholder = js_or_default own placeholder.
Proof. done. Qed.

Lemma js_or_default_carried stored own index :
  js_or_default (js_or stored own) (placeholderId index)
  = carriedId stored own index.
Proof.
  unfold js_or_default, js_or, carriedId, truthy, nonempty.
  destruct stored as [stored|]; [destruct (decide (stored = ""))|];
    simpl; try by rewrite ?decide_False.
Qed.

(** One fragment, met when [id] is stored for [index]. *)
Lemma tool_call_stable tc st index id :
  id ≠ "" →
  (tcd_index tc = index →
   nonempty (tcd_id tc) = None ∨ nonempty (tcd_id tc) = Some id) →
  toolCallIds st !! index = Some id →
  toolCallIds (translateToolCallDelta tc st).1 !! index = Some id
  ∧ Forall (fun event =>
              ∀ id', toolEventId event = Some (index, id') → id' = id)
      (translateToolCallDelta tc st).2.
Proof.
  intros Hid Hagree Hstored. split.
  - rewrite (proj2 (translateToolCallDelta_state tc st)).
    destruct (decide (tcd_index tc = index)) as [Hidx|Hidx].
    + destruct (Hagree Hidx) as [-> | ->]; [done|].
      rewrite Hidx. apply lookup_insert_eq.
    + destruct (nonempty (tcd_id tc)); [|done].
      by rewrite lookup_insert_ne.
  - eapply Forall_impl; [apply translateToolCallDelta_events|].
    intros event Hevent id' Hid'. rewrite Hevent in Hid'.
    injection Hid' as Hidx <-. rewrite Hidx, Hstored.
    by apply js_or_default_stored.
Qed.

Lemma tool_calls_stable tool_calls st index id :
  id ≠ "" →
  idsAgree index id tool_calls →
  toolCallIds st !! index = Some id →
  toolCallIds (forEach translateToolCallDelta tool_calls st).1 !! index
  = Some id
  ∧ Forall (fun event =>
              ∀ id', toolEventId event = Some (index, id') → id' = id)
      (forEach translateToolCallDelta tool_calls st).2.
Proof.
  intros Hid Hagree Hstored.
  apply (forEach_invariant (fun st => toolCallIds st !! index = Some id) _
           (fun tc => tcd_index tc = index →
                      nonempty (tcd_id tc) = None
                      ∨ nonempty (tcd_id tc) = Some id));
    [|done|done].
  intros tc st' Htc Hst'. by apply tool_call_stable.
Qed.

Lemma choice_stable chunk choice st index id :
  id ≠ "" →
  idsAgree index id (default [] (d_tool_calls (cc_delta choice))) →
  toolCallIds st !! index = Some id →
  toolCallIds (translateChunkChoice chunk choice st).1 !! index = Some id
  ∧ Forall (fun event =>
              ∀ id', toolEventId event = Some (index, id') → id' = id)
      (translateChunkChoice chunk choice st).2.
Proof.
  intros Hid Hagree Hstored. rewrite translateChunkChoice_eq. simpl.
  destruct (d_tool_calls (cc_delta choice)) as [tool_calls|]; simpl in *.
  - destruct (tool_calls_stable tool_calls st index id) as [Hst Hevents];
      try done.
    split; [done|]. repeat (apply Forall_app; split); [|done|].
    + destruct (nonempty (d_content _)); repeat constructor; done.
    + destruct (nonempty (cc_finish_reason _)); repeat constructor; done.
  - split; [done|]. apply Forall_app. split.
    + destruct (nonempty (d_content _)); repeat constructor; done.
    + destruct (nonempty (cc_finish_reason _)); repeat constructor; done.
Qed.

Lemma chunk_stable chunk st index id :
  id ≠ "" →
  idsAgree index id (chunkFragments chunk) →
  toolCallIds st !! index = Some id →
  toolCallIds (translateChatChunkToResponsesEvents chunk st).1 !! index
  = Some id
  ∧ Forall (fun event =>
              ∀ id', toolEventId event = Some (index, id') → id' = id)
      (translateChatChunkToResponsesEvents chunk st).2.
Proof.
  intros Hid Hagree Hstored.
  rewrite translateChatChunkToResponsesEvents_eq. simpl.
  apply Forall_flat_map in Hagree.
  destruct (forEach_invariant (fun st => toolCallIds st !! index = Some id)
              (fun event =>
                 ∀ id', toolEventId event = Some (index, id') → id' = id)
              (fun choice =>
                 idsAgree index id
                   (default [] (d_tool_calls (cc_delta choice))))
              (translateChunkChoice chunk) (ck_choices chunk)
              (if sentCreated st then st
               else mkStreamState (ck_id chunk) true (currentItemIndex st)
                      (toolCallIds st))) as [Hst Hevents]; try done.
  - intros choice st' Hchoice Hst'. by apply choice_stable.
  - by destruct (sentCreated st).
  - split; [done|]. apply Forall_app. split; [|done].
    destruct (sentCreated st); repeat constructor; done.
Qed.

Lemma chunks_stable chunks st index id :
  id ≠ "" →
  idsAgree index id (streamFragments chunks) →
  toolCallIds st !! index = Some id →
  toolCallIds (translateChunks chunks st).1 !! index = Some id
  ∧ carriesId index id (translateChunks chunks st).2.
Proof.
  intros Hid Hagree Hstored. apply Forall_flat_map in Hagree.
  destruct (forEach_invariant (fun st => toolCallIds st !! index = Some id)
              (fun event =>
                 ∀ id', toolEventId event = Some (index, id') → id' = id)
              (fun chunk => idsAgree index id (chunkFragments chunk))
              translateChatChunkToResponsesEvents chunks st)
    as [Hst Hevents]; try done.
  - intros chunk st' Hchunk Hst'. by apply chunk_stable.
  - split; [done|]. intros event id' Hin.
    by apply (proj1 (Forall_forall _ _) Hevents).
Qed.

(** C6 (amended): how the reducer tracks tool-call ids.  While no id is
    stored for the index of a fragment, its events carry the fragment's own
    id when it has a non-empty one and the placeholder call_<index>
    otherwise, and a non-empty id is stored; a fragment with a non-empty id
    always stores it, replacing whatever was stored; and once an id is stored
    for an index, every later tool-call event for that index carries it and
    it stays stored, as long as no later fragment for that index brings a
    different non-empty id.  In every case the events of a fragment are the
    added item (for a non-empty name) and the arguments delta (for non-empty
    arguments), both under the id stored before the fragment, else the
    fragment's own id, else the placeholder: a fragment that brings another
    id is still reported under the stored one.  The two-chunk scenario emits
    the added item and the arguments delta under "call_1"; when a third
    fragment in between brings "call_2", the events after it carry
    "call_2". *)
Theorem tool_call_id_tracking :
  (∀ tc st,
     toolCallIds st !! tcd_index tc = None →
     Forall (fun event =>
               toolEventId event
               = Some (tcd_index tc,
                       js_or_default (tcd_id tc)
                         (placeholderId (tcd_index tc))))
       (translateToolCallDelta tc st).2
     ∧ toolCallIds (translateToolCallDelta tc st).1 !! tcd_index tc
       = nonempty (tcd_id tc))
  ∧ (∀ tc st id,
       nonempty (tcd_id tc) = Some id →
       toolCallIds (translateToolCallDelta tc st).1 !! tcd_index tc = Some id)
  ∧ (∀ chunks st index id,
       id ≠ "" →
       toolCallIds st !! index = Some id →
       idsAgree index id (streamFragments chunks) →
       toolCallIds (translateChunks chunks st).1 !! index = Some id
       ∧ carriesId index id (translateChunks chunks st).2)
  ∧ (∀ tc st,
       (translateToolCallDelta tc st).2
       = fragmentEvents tc
           (carriedId (toolCallIds st !! tcd_index tc) (tcd_id tc)
              (tcd_index tc)))
  ∧ (translateChunks [toolStart; toolArguments] initialStreamState).2
    = [ResponsesCreatedEvent "chatcmpl-1" 1700000000 "gpt-4o";
       ResponsesOutputItemAddedEvent 0
         (ResponsesOutputFunctionCall "call_1" "call_1" "foo" "" None);
       ResponsesFunctionCallArgumentsDeltaEvent "call_1" 0
         ("{" +:+ dquote +:+ "x" +:+ dquote +:+ ":1}")]
  ∧ (translateChunks [toolStart; toolRenamed; toolArguments]
       initialStreamState).2
    = [ResponsesCreatedEvent "chatcmpl-1" 1700000000 "gpt-4o";
       ResponsesOutputItemAddedEvent 0
         (ResponsesOutputFunctionCall "call_1" "call_1" "foo" "" None);
       ResponsesFunctionCallArgumentsDeltaEvent "call_1" 0 "{";
       ResponsesFunctionCallArgumentsDeltaEvent "call_2" 0
         ("{" +:+ dquote +:+ "x" +:+ dquote +:+ ":1}")].
Proof.
  split; [|split; [|split; [|split; [|split]]]].
  - intros tc st Hnone. split.
    + pose proof (translateToolCallDelta_events tc st) as Hevents.
      by rewrite Hnone, js_or_default_absent in Hevents.
    + rewrite (proj2 (translateToolCallDelta_state tc st)).
      destruct (nonempty (tcd_id tc)); [apply lookup_insert_eq|done].
  - intros tc st id Hown.
    rewrite (proj2 (translateToolCallDelta_state tc st)), Hown.
    apply lookup_insert_eq.
  - intros chunks st index id Hid Hstored Hagree. by apply chunks_stable.
  - intros tc st. unfold translateToolCallDelta, fragmentEvents. simpl.
    by rewrite js_or_default_carried.
  - by vm_compute.
  - by vm_compute.
Qed.

(** The scenario through the amended C6: after the chunk that brings
    "call_1" for index 0, the arguments of the next chunk are reported under
    "call_1". *)
Lemma tool_call_id_tracking_witness :
  carriesId 0 "call_1"
    (translateChunks [toolArguments; toolArguments]
       (translateChatChunkToResponsesEvents toolStart initialStreamState).1).2.
Proof.
  apply (proj1 (proj2 (proj2 tool_call_id_tracking))
           [toolArguments; toolArguments]
           (translateChatChunkToResponsesEvents toolStart initialStreamState).1
           0 "call_1").
  - discriminate.
  - by vm_compute.
  - repeat constructor.
Defined.

End Reducer.

(** * Results on the fallback controller *)

Section Controller.

Variable createResponses : ResponsesPayload → ResponsesResult.
Variable createChatCompletions : ChatCompletionsPayload → ChatResult.
Variable models : option (list Model).

Lemma shouldFallbackToChat_eligible error supportsChat :
  shouldFallbackToChat error supportsChat = true
  ↔ fallbackEligible error supportsChat.
Proof.
  unfold shouldFallbackToChat, fallbackEligible.
  destruct supportsChat, error as [status body|message]; simpl.
  - rewrite !orb_true_iff, !Z.eqb_eq. split.
    + intros Hstatus. split; [done|]. exists status. split; [done|tauto].
    + intros [_ (status' & Heq & Hstatus)]. injection Heq as ->. tauto.
  - split; [done|]. by intros [_ (status & Heq & _)].
  - split; [done|]. by intros [Hchat _].
  - split; [done|]. by intros [Hchat _].
Qed.

Lemma rp_model_preparePayload payload :
  rp_model (preparePayload models payload) = rp_model payload.
Proof.
  unfold preparePayload. simpl. by destruct (rp_max_output_tokens payload).
Qed.

(** Without the Responses endpoint nothing is tried at all: [lastError]
    stays null, so the guard of the fallback block is false. *)
Lemma no_primary_no_fallback payload :
  supportsEndpoint (modelEndpoints models payload) "/responses" = false →
  handleResponses createResponses createChatCompletions models (Some payload)
  = ([], UnsupportedModel (rp_model payload)).
Proof.
  unfold handleResponses, modelEndpoints, tryPrimary, tryFallback.
  intros ->. simpl. rewrite andb_false_r. simpl.
  by rewrite rp_model_preparePayload.
Qed.

(** The failures the specification lists as terminal are not eligible. *)
Lemma terminal_failures supportsChat :
  (∀ message, ¬ fallbackEligible (OtherError message) supportsChat)
  ∧ (∀ status body,
       status ∈ [401; 403; 429; 500; 503] →
       ¬ fallbackEligible (HTTPError status body) supportsChat).
Proof.
  split.
  - intros message [_ (status & Hstatus & _)]. discriminate Hstatus.
  - intros status body Hin [_ (status' & Hstatus & Hcases)].
    injection Hstatus as <-.
    repeat (apply elem_of_cons in Hin as [->|Hin];
            [destruct Hcases as [?|[?|?]]; discriminate|]).
    by apply elem_of_nil in Hin.
Qed.

(** C3: when the primary attempt throws, the Chat-Completions endpoint is
    called exactly when the failure is an upstream HTTP failure with status
    400, 404 or 422 and the model supports Chat-Completions; then the
    translated payload is sent after the primary call.  In every other case
    the only call is the primary one and the reply forwards the thrown error
    itself, status and body included. *)
Theorem fallback_iff_eligible payload error :
  supportsEndpoint (modelEndpoints models payload) "/responses" = true →
  createResponses (preparePayload models payload) = ResponsesThrows error →
  (fallbackTaken
     (handleResponses createResponses createChatCompletions models
        (Some payload)).1
   ↔ fallbackEligible error
       (supportsEndpoint (modelEndpoints models payload) "/chat/completions"))
  ∧ (fallbackEligible error
       (supportsEndpoint (modelEndpoints models payload) "/chat/completions") →
     (handleResponses createResponses createChatCompletions models
        (Some payload)).1
     = [CallResponses (preparePayload models payload);
        CallChatCompletions
          (translateResponsesToChatPayload (preparePayload models payload))])
  ∧ (¬ fallbackEligible error
         (supportsEndpoint (modelEndpoints models payload) "/chat/completions") →
     handleResponses createResponses createChatCompletions models
       (Some payload)
     = ([CallResponses (preparePayload models payload)], ForwardError error)).
Proof.
  intros Hprimary Hthrows.
  unfold handleResponses, tryPrimary. fold (modelEndpoints models payload).
  rewrite Hprimary, Hthrows.
  destruct (shouldFallbackToChat error _) eqn:Hshould; simpl.
  - apply shouldFallbackToChat_eligible in Hshould as Heligible.
    destruct Heligible as [Hchat _]. unfold tryFallback.
    rewrite Hchat in Hshould |- *. simpl.
    split; [|split].
    + split; [intros _|intros _; reflexivity].
      by apply shouldFallbackToChat_eligible.
    + done.
    + intros Hnot. exfalso. apply Hnot.
      by apply shouldFallbackToChat_eligible.
  - assert (¬ fallbackEligible error
                (supportsEndpoint (modelEndpoints models payload)
                   "/chat/completions")) as Hnot.
    { rewrite <- shouldFallbackToChat_eligible. by rewrite Hshould. }
    split; [|split]; [|done|done].
    split; [intros Htaken; discriminate Htaken|done].
Qed.

(** C1 fails on the code: for a model that advertises only the
    Chat-Completions endpoint the handler calls no upstream at all and
    answers with the unsupported-model error, whatever the upstream would
    have replied. *)
Theorem chat_only_model_rejected :
  handleResponses createResponses createChatCompletions
    (Some [chatOnlyModel]) (Some (userHiPayload "gpt-legacy"))
  = ([], UnsupportedModel "gpt-legacy").
Proof. reflexivity. Qed.

End Controller.

(** The translation C1 expects for that request: one user message
    with content "hi". *)
Example userHi_translated :
  cp_messages (translateResponsesToChatPayload (userHiPayload "gpt-legacy"))
  = [mkMessage ChatUser (ContentString "hi") None None].
Proof. reflexivity. Qed.

(** An upstream 500 on the primary attempt is forwarded as it is, and the
    Chat-Completions endpoint is not called, although the model supports
    it. *)
Lemma fallback_iff_eligible_witness :
  handleResponses
    (fun _ => ResponsesThrows (HTTPError 500 "upstream exploded"))
    (fun _ => ChatThrows (OtherError "not reached"))
    None (Some (userHiPayload "gpt-4o"))
  = ([CallResponses (preparePayload None (userHiPayload "gpt-4o"))],
     ForwardError (HTTPError 500 "upstream exploded")).
Proof.
  apply (proj2 (proj2
           (fallback_iff_eligible
              (fun _ => ResponsesThrows (HTTPError 500 "upstream exploded"))
              (fun _ => ChatThrows (OtherError "not reached"))
              None (userHiPayload "gpt-4o")
              (HTTPError 500 "upstream exploded") eq_refl eq_refl))).
  intros [_ (status & Hstatus & Hcases)].
  injection Hstatus as <-. destruct Hcases as [?|[?|?]]; discriminate.
Defined.

(** A 404 on the primary attempt with a model that supports both endpoints
    is followed by the Chat-Completions call. *)
Example fallback_on_404 :
  (handleResponses
     (fun _ => ResponsesThrows (HTTPError 404 "no such route"))
     (fun _ => ChatThrows (OtherError "down"))
     None (Some (userHiPayload "gpt-4o"))).1
  = [CallResponses (preparePayload None (userHiPayload "gpt-4o"));
     CallChatCompletions
       (translateResponsesToChatPayload
          (preparePayload None (userHiPayload "gpt-4o")))].
Proof. reflexivity. Qed.

(** * Further results on the translator *)

Section TranslatorExtras.



Lemma push_messages (messages : list Message) input :
  foldl (fun messages item =>
           match translateInputItemToMessage item with
           | Some translated => messages ++ [translated]
           | None => messages
           end) messages input
  = messages ++ omap translateInputItemToMessage input.
Proof.
  revert messages. induction input as [|item input IH]; intros messages; simpl.
  - by rewrite app_nil_r.
  - rewrite IH. destruct (translateInputItemToMessage item); simpl.
    + by rewrite <- app_assoc.
    + done.
Qed.

Lemma omap_length_le {A B} (f : A → option B) (l : list A) :
  (length (omap f l) ≤ length l)%nat.
Proof.
  induction l as [|x l IH]; csimpl; [done|].
  destruct (f x); csimpl; lia.
Qed.

Lemma translated_role item :
  msg_role <$> translateInputItemToMessage item = itemRole item.
Proof. by destruct item as [| | | |[|] ? ?| | |]. Qed.

Lemma translated_roles (input : list ResponsesInputItem) :
  msg_role <$> omap translateInputItemToMessage input = omap itemRole input.
Proof.
  induction input as [|item input IH]; [done|]. csimpl.
  rewrite <- (translated_role item), <- IH.
  by destruct (translateInputItemToMessage item).
Qed.

Lemma omap_roles_length (input : list ResponsesInputItem) :
  length (omap itemRole input)
  = length (List.filter (fun item => negb (isItemReference item)) input).
Proof.
  induction input as [|item input IH]; [done|].
  destruct item as [| | | |[|] ? ?| | |]; csimpl; by rewrite ?IH.
Qed.

(** X1: The messages of the translated payload are the optional system message
    for the instructions followed by the translations of the input items in
    input order.  Item by item: an item reference becomes no message, and
    every other item becomes exactly one, with role system, developer, user
    or assistant for the messages of those roles, assistant for a function
    call and tool for a function-call output; so the roles of the payload are
    those of the items in order, and the number of messages is the number of
    items that are not item references, plus one for non-empty instructions.
    A history translated in two parts gives the two translations one after
    the other. *)
Theorem chat_messages_in_order payload :
  cp_messages (translateResponsesToChatPayload payload)
  = match nonempty (rp_instructions payload) with
    | Some instructions =>
        [mkMessage ChatSystem (ContentString instructions) None None]
    | None => []
    end
    ++ omap translateInputItemToMessage (rp_input payload)
  ∧ (∀ item, msg_role <$> translateInputItemToMessage item = itemRole item)
  ∧ msg_role <$> cp_messages (translateResponsesToChatPayload payload)
    = match nonempty (rp_instructions payload) with
      | Some _ => [ChatSystem]
      | None => []
      end
      ++ omap itemRole (rp_input payload)
  ∧ length (cp_messages (translateResponsesToChatPayload payload))
    = (match nonempty (rp_instructions payload) with
       | Some _ => 1
       | None => 0
       end
       + length (List.filter (fun item => negb (isItemReference item))
                   (rp_input payload)))%nat
  ∧ (∀ earlier later,
       rp_input payload = earlier ++ later →
       cp_messages (translateResponsesToChatPayload payload)
       = cp_messages
           (translateResponsesToChatPayload (with_input payload earlier))
         ++ omap translateInputItemToMessage later).
Proof.
  assert (Hmessages : ∀ p,
    cp_messages (translateResponsesToChatPayload p)
    = match nonempty (rp_instructions p) with
      | Some instructions =>
          [mkMessage ChatSystem (ContentString instructions) None None]
      | None => []
      end
      ++ omap translateInputItemToMessage (rp_input p)).
  { intros p. unfold translateResponsesToChatPayload. simpl.
    apply push_messages. }
  assert (Hroles :
    msg_role <$> cp_messages (translateResponsesToChatPayload payload)
    = match nonempty (rp_instructions payload) with
      | Some _ => [ChatSystem]
      | None => []
      end
      ++ omap itemRole (rp_input payload)).
  { rewrite Hmessages, fmap_app, translated_roles.
    by destruct (nonempty (rp_instructions payload)). }
  split; [apply Hmessages|].
  split; [apply translated_role|].
  split; [exact Hroles|split].
  - rewrite <- (length_fmap msg_role), Hroles, length_app, omap_roles_length.
    by destruct (nonempty (rp_instructions payload)).
  - intros earlier later Hsplit.
    rewrite !Hmessages, Hsplit. simpl.
    by rewrite omap_app, app_assoc.
Qed.







Lemma contentPartsLoop_parts content parts result :
  contentPartsLoop content parts = ContentParts result →
  Forall (fun part => partText part = None) content
  ∧ result = parts ++ imageParts content
  ∧ result ≠ [].
Proof.
  revert parts. induction content as [|part content IH]; intros parts; simpl.
  - rewrite length_positive. destruct parts; [done|].
    intros [= <-]. by rewrite app_nil_r.
  - destruct part; try done.
    + intros Hloop. destruct (IH _ Hloop) as (Hnotext & -> & Hne).
      rewrite <- app_assoc in *. by repeat split; [constructor|..].
    + intros Hloop. destruct (IH _ Hloop) as (Hnotext & -> & Hne).
      by repeat split; [constructor|..].
Qed.

(** X3: The converse of the content reduction: a list of parts is returned only
    for an array without text part, it is the projection of the array's
    images, and it is never empty. *)
Theorem content_parts_are_images content result :
  translateResponsesContentToChatContent content = ContentParts result →
  result ≠ []
  ∧ ∃ parts,
      content = ContentArray parts
      ∧ Forall (fun part => partText part = None) parts
      ∧ result = imageParts parts.
Proof.
  destruct content as [s|parts]; simpl.
  - by destruct (decide (s = "")).
  - intros Hloop.
    destruct (contentPartsLoop_parts parts [] result Hloop)
      as (Hnotext & -> & Hne).
    split; [done|]. by exists parts.
Qed.

Lemma content_parts_are_images_witness :
  [ImageUrlPart "https://example.org/a.png" None] ≠ []
  ∧ ∃ parts,
      ContentArray
        [ResponsesInputFile None (Some "notes.txt") None None;
         ResponsesInputImage "https://example.org/a.png" None]
      = ContentArray parts
      ∧ Forall (fun part => partText part = None) parts
      ∧ [ImageUrlPart "https://example.org/a.png" None] = imageParts parts.
Proof.
  apply (content_parts_are_images
           (ContentArray
              [ResponsesInputFile None (Some "notes.txt") None None;
               ResponsesInputImage "https://example.org/a.png" None])
           [ImageUrlPart "https://example.org/a.png" None]).
  reflexivity.
Defined.



End TranslatorExtras.

(** * Further results on the streaming event reducer *)

Section ReducerExtras.

Implicit Types (state st : StreamState).

Lemma nonempty_Some s text : nonempty s = Some text → s = Some text ∧ text ≠ "".
Proof.
  unfold nonempty. destruct s as [s|]; [|done].
  destruct (decide (s = "")); [done|]. by intros [= <-].
Qed.

Lemma forEach_app {A} (body : A → StreamState → _) xs ys st :
  forEach body (xs ++ ys) st
  = ((forEach body ys (forEach body xs st).1).1,
     (forEach body xs st).2 ++ (forEach body ys (forEach body xs st).1).2).
Proof.
  revert st. induction xs as [|x xs IH]; intros st.
  - simpl. by destruct (forEach body ys st).
  - change ((x :: xs) ++ ys) with (x :: (xs ++ ys)).
    rewrite !forEach_cons, IH. simpl. by rewrite app_assoc.
Qed.

(** A stream can be cut anywhere: feeding the first chunks and then, with
    the state they leave, the remaining ones gives the events of the whole
    stream in order, and the same final state. *)
Lemma translateChunks_app chunks chunks' st :
  translateChunks (chunks ++ chunks') st
  = ((translateChunks chunks' (translateChunks chunks st).1).1,
     (translateChunks chunks st).2
     ++ (translateChunks chunks' (translateChunks chunks st).1).2).
Proof. apply forEach_app. Qed.

(** *** The handler's loop over the server-sent messages *)

Lemma streamLoop_cons message messages ls :
  streamLoop (message :: messages) ls
  = ((streamLoop messages (translateStreamMessage message ls).1).1,
     (translateStreamMessage message ls).2
     ++ (streamLoop messages (translateStreamMessage message ls).1).2).
Proof.
  simpl. destruct (translateStreamMessage message ls) as [ls1 ev1]; simpl.
  by destruct (streamLoop messages ls1).
Qed.

Lemma translateStreamMessage_data parsed ls :
  ls_state (translateStreamMessage (ChatData parsed) ls).1
  = (translateChatChunkToResponsesEvents parsed (ls_state ls)).1
  ∧ (translateStreamMessage (ChatData parsed) ls).2
    = (translateChatChunkToResponsesEvents parsed (ls_state ls)).2.
Proof.
  simpl. by destruct (translateChatChunkToResponsesEvents parsed (ls_state ls)).
Qed.

Lemma stream_messages_decoded messages ls :
  Forall notThrowing messages →
  ls_state (streamLoop messages ls).1
  = (translateChunks (decodedChunks messages) (ls_state ls)).1
  ∧ (streamLoop messages ls).2
    = (translateChunks (decodedChunks messages) (ls_state ls)).2.
Proof.
  intros Hmessages. revert ls.
  induction Hmessages as [|message messages Hmessage _ IH]; intros ls; [done|].
  rewrite streamLoop_cons. simpl fst. simpl snd.
  destruct message as [| | |parsed|parsed]; try done; try apply IH.
  destruct (translateStreamMessage_data parsed ls) as [Hstate Hevents].
  destruct (IH (translateStreamMessage (ChatData parsed) ls).1) as [IHs IHe].
  rewrite IHs, IHe, Hevents, Hstate. csimpl.
  unfold translateChunks. by rewrite forEach_cons.
Qed.

Lemma streamLoop_parsed messages ls :
  streamLoop messages ls = streamLoop (List.filter isParsed messages) ls.
Proof.
  revert ls. induction messages as [|message messages IH]; intros ls; [done|].
  destruct message; simpl List.filter; rewrite ?streamLoop_cons, ?IH;
    try done; simpl; by destruct (streamLoop _ ls).
Qed.

Lemma throwingRun_latch data ls :
  sentCreated (ls_state (throwingRun data ls)) = true.
Proof.
  destruct data as [|id fragments]; simpl.
  - by destruct (sentCreated (ls_state ls)) eqn:Hlatch.
  - rewrite (proj1 (tool_calls_keep_latch fragments _)).
    by destruct (sentCreated (ls_state ls)) eqn:Hlatch.
Qed.

Lemma created_count chunks st :
  sentCreated st = false →
  countCreated (translateChunks chunks st).2
  = match chunks with [] => 0%nat | _ :: _ => 1%nat end.
Proof.
  intros Hst. destruct chunks as [|chunk chunks]; [done|].
  unfold translateChunks. rewrite forEach_cons. simpl.
  destruct (chunk_sets_latch chunk st Hst) as (Hlatch & rest & -> & Hrest).
  pose proof (chunks_after_latch chunks _ Hlatch) as Hlater.
  unfold translateChunks in Hlater.
  by rewrite countCreated_app, countCreated_cons,
    (countCreated_none rest Hrest), (countCreated_none _ Hlater).
Qed.

(** With the latch set the loop writes no created event; with the latch
    open it writes one exactly when the first parsed data is a chunk. *)
Lemma streamLoop_created messages ls :
  countCreated (streamLoop messages ls).2
  = if sentCreated (ls_state ls) then 0%nat
    else match firstParsed messages with
         | Some (ChatData _) => 1%nat
         | _ => 0%nat
         end.
Proof.
  revert ls. induction messages as [|message messages IH]; intros ls.
  - simpl. by destruct (sentCreated (ls_state ls)).
  - rewrite streamLoop_cons. simpl snd. rewrite countCreated_app, IH.
    destruct message as [| | |parsed|parsed]; try done.
    + destruct (translateStreamMessage_data parsed ls) as [-> ->].
      unfold firstParsed. simpl.
      destruct (sentCreated (ls_state ls)) eqn:Hlatch.
      * destruct (chunk_after_latch parsed _ Hlatch) as [-> Hnone].
        by rewrite (countCreated_none _ Hnone).
      * destruct (chunk_sets_latch parsed _ Hlatch)
          as (-> & rest & -> & Hrest).
        by rewrite countCreated_cons, (countCreated_none _ Hrest).
    + simpl fst. simpl snd. rewrite throwingRun_latch.
      unfold firstParsed. simpl. by destruct (sentCreated (ls_state ls)).
Qed.

(** X5: In the translated stream the messages without data, the DONE
    sentinel and undecodable data are skipped without a trace: the loop over a
    stream is the loop over its parsed messages.  When no parsed data makes
    the reducer throw, events and final state are those of the reducer run
    over the decoded chunks.  Started from the state built at stream start,
    the stream holds one response.created event when its first parsed data
    is a chunk, and none otherwise: none when nothing parses, and none
    either when the first parsed data makes the reducer throw, since that
    run sets the latch and its events are lost. *)
Theorem fallback_stream_decoded messages :
  (∀ ls,
     streamLoop messages ls = streamLoop (List.filter isParsed messages) ls)
  ∧ (∀ ls,
       Forall notThrowing messages →
       ls_state (streamLoop messages ls).1
       = (translateChunks (decodedChunks messages) (ls_state ls)).1
       ∧ (streamLoop messages ls).2
         = (translateChunks (decodedChunks messages) (ls_state ls)).2)
  ∧ countCreated (streamLoop messages initialLoopState).2
    = match firstParsed messages with
      | Some (ChatData _) => 1%nat
      | _ => 0%nat
      end.
Proof.
  split; [|split].
  - apply streamLoop_parsed.
  - intros ls. apply stream_messages_decoded.
  - by rewrite streamLoop_created.
Qed.

(** An error object first, then a chunk: no created event ever leaves. *)
Example stream_after_error_object :
  (streamLoop [ChatThrowing (ThrowsAfter None []); ChatData toolStart; ChatDone]
     initialLoopState).2
  = [ResponsesOutputItemAddedEvent 0
       (ResponsesOutputFunctionCall "call_1" "call_1" "foo" "" None)].
Proof. by vm_compute. Qed.

(** *** Fields of the state *)

Lemma tool_calls_keep_fields tool_calls st :
  responseId (forEach translateToolCallDelta tool_calls st).1 = responseId st
  ∧ currentItemIndex (forEach translateToolCallDelta tool_calls st).1
    = currentItemIndex st.
Proof.
  destruct (forEach_invariant
              (fun st' => responseId st' = responseId st
                          ∧ currentItemIndex st' = currentItemIndex st)
              (fun _ => True) (fun _ => True)
              translateToolCallDelta tool_calls st) as [Hfields _];
    try done.
  - intros tc st' _ [Hid Hindex]. split; [|by apply Forall_forall].
    unfold translateToolCallDelta. simpl. by destruct (nonempty (tcd_id tc)).
  - by apply Forall_forall.
Qed.

Lemma choices_keep_fields chunk choices st :
  responseId (forEach (translateChunkChoice chunk) choices st).1
  = responseId st
  ∧ currentItemIndex (forEach (translateChunkChoice chunk) choices st).1
    = currentItemIndex st.
Proof.
  destruct (forEach_invariant
              (fun st' => responseId st' = responseId st
                          ∧ currentItemIndex st' = currentItemIndex st)
              (fun _ => True) (fun _ => True)
              (translateChunkChoice chunk) choices st) as [Hfields _];
    try done.
  - intros choice st' _ [Hid Hindex]. split; [|by apply Forall_forall].
    rewrite translateChunkChoice_eq. simpl.
    destruct (d_tool_calls _) as [tool_calls|]; simpl; [|done].
    destruct (tool_calls_keep_fields tool_calls st') as [-> ->]. done.
  - by apply Forall_forall.
Qed.

Lemma chunk_fields chunk st :
  currentItemIndex (translateChatChunkToResponsesEvents chunk st).1
  = currentItemIndex st
  ∧ responseId (translateChatChunkToResponsesEvents chunk st).1
    = if sentCreated st then responseId st else ck_id chunk.
Proof.
  rewrite translateChatChunkToResponsesEvents_eq. simpl.
  destruct (choices_keep_fields chunk (ck_choices chunk)
              (if sentCreated st then st
               else mkStreamState (ck_id chunk) true (currentItemIndex st)
                      (toolCallIds st))) as [-> ->].
  by destruct (sentCreated st).
Qed.

(** X6: The reducer never advances [currentItemIndex]; [responseId] is written
    once, by the chunk that finds the latch open, with that chunk's id, and
    no later chunk changes it, whatever id it carries. *)
Theorem stream_state_fields :
  (∀ chunks st,
     currentItemIndex (translateChunks chunks st).1 = currentItemIndex st)
  ∧ (∀ chunks st,
       sentCreated st = true →
       responseId (translateChunks chunks st).1 = responseId st)
  ∧ (∀ chunk chunks st,
       sentCreated st = false →
       responseId (translateChunks (chunk :: chunks) st).1 = ck_id chunk).
Proof.
  assert (Hset : ∀ chunks st,
            sentCreated st = true →
            responseId (translateChunks chunks st).1 = responseId st).
  { intros chunks st Hst.
    destruct (forEach_invariant
                (fun st' => sentCreated st' = true
                            ∧ responseId st' = responseId st)
                (fun _ => True) (fun _ => True)
                translateChatChunkToResponsesEvents chunks st)
      as [[_ Hid] _]; try done.
    - intros chunk st' _ [Hlatch Hid]. split; [|by apply Forall_forall].
      split; [by apply chunk_after_latch|].
      rewrite (proj2 (chunk_fields chunk st')), Hlatch. done.
    - by apply Forall_forall. }
  split; [|split; [exact Hset|]].
  - intros chunks st.
    destruct (forEach_invariant
                (fun st' => currentItemIndex st' = currentItemIndex st)
                (fun _ => True) (fun _ => True)
                translateChatChunkToResponsesEvents chunks st)
      as [Hindex _]; try done.
    + intros chunk st' _ Hindex. split; [|by apply Forall_forall].
      by rewrite (proj1 (chunk_fields chunk st')).
    + by apply Forall_forall.
  - intros chunk chunks st Hst. unfold translateChunks.
    rewrite forEach_cons. simpl.
    destruct (chunk_sets_latch chunk st Hst) as [Hlatch _].
    fold (translateChunks chunks
            (translateChatChunkToResponsesEvents chunk st).1).
    rewrite (Hset _ _ Hlatch), (proj2 (chunk_fields chunk st)), Hst. done.
Qed.

(** Two chunks with different ids: the state keeps the id of the first. *)
Lemma stream_state_fields_witness :
  responseId
    (translateChunks
       [toolStart; mkChatChunk "chatcmpl-2" "gpt-4o" 1700000001 []]
       initialStreamState).1
  = "chatcmpl-1".
Proof.
  apply (proj2 (proj2 stream_state_fields) toolStart
           [mkChatChunk "chatcmpl-2" "gpt-4o" 1700000001 []]
           initialStreamState).
  reflexivity.
Defined.

(** *** The id map *)

(** Loop rule: an entry of the id map after the loop was there before or was
    brought by a fragment of one of the elements. *)
Lemma forEach_provenance {A} (body : A → StreamState → _)
    (fragments : A → list ToolCallDelta) index id :
  (∀ x st,
     toolCallIds (body x st).1 !! index = Some id →
     toolCallIds st !! index = Some id
     ∨ (id ≠ "" ∧ ∃ tc, tc ∈ fragments x
                        ∧ tcd_index tc = index ∧ tcd_id tc = Some id)) →
  ∀ xs st,
    toolCallIds (forEach body xs st).1 !! index = Some id →
    toolCallIds st !! index = Some id
    ∨ (id ≠ "" ∧ ∃ tc, tc ∈ flat_map fragments xs
                       ∧ tcd_index tc = index ∧ tcd_id tc = Some id).
Proof.
  intros Hbody. induction xs as [|x xs IH]; intros st; [by left|].
  rewrite forEach_cons. simpl. intros Hstored.
  destruct (IH _ Hstored) as [Hbefore|(Hid & tc & Hin & Hidx & Htc)].
  - destruct (Hbody _ _ Hbefore) as [?|(Hid & tc & Hin & Hidx & Htc)];
      [by left|].
    right. split; [done|]. exists tc. split; [|done].
    apply elem_of_app. by left.
  - right. split; [done|]. exists tc. split; [|done].
    apply elem_of_app. by right.
Qed.

Lemma flat_map_singleton {A} (l : list A) : flat_map (fun x => [x]) l = l.
Proof. induction l as [|x l IH]; simpl; [done|by rewrite IH]. Qed.

Lemma tool_call_provenance tc st index id :
  toolCallIds (translateToolCallDelta tc st).1 !! index = Some id →
  toolCallIds st !! index = Some id
  ∨ (id ≠ "" ∧ ∃ tc', tc' ∈ [tc]
                      ∧ tcd_index tc' = index ∧ tcd_id tc' = Some id).
Proof.
  rewrite (proj2 (translateToolCallDelta_state tc st)).
  destruct (nonempty (tcd_id tc)) as [own|] eqn:Hown; [|by left].
  apply nonempty_Some in Hown as [Hown Hne].
  destruct (decide (tcd_index tc = index)) as [<-|Hidx].
  - rewrite lookup_insert_eq. intros [= <-]. right. split; [done|].
    exists tc. split; [apply list_elem_of_here|done].
  - rewrite lookup_insert_ne by done. by left.
Qed.

Lemma choice_provenance chunk choice st index id :
  toolCallIds (translateChunkChoice chunk choice st).1 !! index = Some id →
  toolCallIds st !! index = Some id
  ∨ (id ≠ "" ∧ ∃ tc, tc ∈ default [] (d_tool_calls (cc_delta choice))
                     ∧ tcd_index tc = index ∧ tcd_id tc = Some id).
Proof.
  rewrite translateChunkChoice_eq. simpl.
  destruct (d_tool_calls (cc_delta choice)) as [tool_calls|]; simpl;
    [|by left].
  intros Hstored.
  destruct (forEach_provenance translateToolCallDelta (fun tc => [tc])
              index id (fun tc st => tool_call_provenance tc st index id)
              tool_calls st Hstored) as [?|Hnew]; [by left|].
  right. by rewrite flat_map_singleton in Hnew.
Qed.

Lemma chunk_provenance chunk st index id :
  toolCallIds (translateChatChunkToResponsesEvents chunk st).1 !! index
  = Some id →
  toolCallIds st !! index = Some id
  ∨ (id ≠ "" ∧ ∃ tc, tc ∈ chunkFragments chunk
                     ∧ tcd_index tc = index ∧ tcd_id tc = Some id).
Proof.
  rewrite translateChatChunkToResponsesEvents_eq. simpl. intros Hstored.
  destruct (forEach_provenance (translateChunkChoice chunk)
              (fun choice => default [] (d_tool_calls (cc_delta choice)))
              index id
              (fun choice st => choice_provenance chunk choice st index id)
              (ck_choices chunk) _ Hstored) as [Hbefore|Hnew].
  - left. by destruct (sentCreated st).
  - by right.
Qed.

(** Loop rule for the presence of an entry. *)
Lemma tool_call_keeps_entry tc st index :
  is_Some (toolCallIds st !! index) →
  is_Some (toolCallIds (translateToolCallDelta tc st).1 !! index).
Proof.
  rewrite (proj2 (translateToolCallDelta_state tc st)).
  destruct (nonempty (tcd_id tc)); [|done].
  intros Hentry. rewrite lookup_insert_is_Some.
  destruct (decide (tcd_index tc = index)); [by left|by right].
Qed.

(** X7: The id map only ever holds ids that arrived: an entry found after a
    stream was there before it or is the non-empty id of a fragment of the
    stream with that index (the placeholder is never stored); and an index
    that has an entry keeps one. *)
Theorem stored_ids_come_from_fragments chunks st index :
  (∀ id,
     toolCallIds (translateChunks chunks st).1 !! index = Some id →
     toolCallIds st !! index = Some id
     ∨ (id ≠ "" ∧ ∃ tc, tc ∈ streamFragments chunks
                        ∧ tcd_index tc = index ∧ tcd_id tc = Some id))
  ∧ (is_Some (toolCallIds st !! index) →
     is_Some (toolCallIds (translateChunks chunks st).1 !! index)).
Proof.
  split.
  - intros id.
    apply (forEach_provenance translateChatChunkToResponsesEvents
             chunkFragments index id
             (fun chunk st => chunk_provenance chunk st index id)).
  - intros Hentry.
    destruct (forEach_invariant
                (fun st' => is_Some (toolCallIds st' !! index))
                (fun _ => True) (fun _ => True)
                translateChatChunkToResponsesEvents chunks st)
      as [Hkept _]; try done; [|by apply Forall_forall].
    intros chunk st' _ Hst'. split; [|by apply Forall_forall].
    rewrite translateChatChunkToResponsesEvents_eq. simpl.
    destruct (forEach_invariant
                (fun st' => is_Some (toolCallIds st' !! index))
                (fun _ => True) (fun _ => True)
                (translateChunkChoice chunk) (ck_choices chunk)
                (if sentCreated st' then st'
                 else mkStreamState (ck_id chunk) true (currentItemIndex st')
                        (toolCallIds st')))
      as [Hchoices _]; try done;
      [|by apply Forall_forall|by destruct (sentCreated st')].
    intros choice st'' _ Hst''. split; [|by apply Forall_forall].
    rewrite translateChunkChoice_eq. simpl.
    destruct (d_tool_calls (cc_delta choice)) as [tool_calls|]; [|done].
    destruct (forEach_invariant
                (fun st' => is_Some (toolCallIds st' !! index))
                (fun _ => True) (fun _ => True)
                translateToolCallDelta tool_calls st'')
      as [Htools _]; try done; [|by apply Forall_forall].
    intros tc st3 _ Hst3. split; [|by apply Forall_forall].
    by apply tool_call_keeps_entry.
Qed.

(** *** Chunks that say nothing *)

Lemma quiet_choice chunk choice st :
  quietChoice choice → translateChunkChoice chunk choice st = (st, []).
Proof.
  intros (Hcontent & Htools & Hfinish).
  rewrite translateChunkChoice_eq, Hcontent, Hfinish. simpl.
  destruct (d_tool_calls (cc_delta choice)) as [tool_calls|];
    simpl in *; by subst.
Qed.

(** X8: Once the created event is out, a chunk whose choices carry a role at
    most (no text, no tool-call fragment, no finish reason) produces no
    event and leaves the state as it was. *)
Theorem quiet_chunk_is_silent chunk st :
  sentCreated st = true →
  Forall quietChoice (ck_choices chunk) →
  translateChatChunkToResponsesEvents chunk st = (st, []).
Proof.
  intros Hst Hquiet.
  rewrite translateChatChunkToResponsesEvents_eq, Hst. simpl.
  induction Hquiet as [|choice choices Hchoice _ IH]; [done|].
  rewrite forEach_cons, quiet_choice by done. simpl.
  by destruct (forEach (translateChunkChoice chunk) choices st).
Qed.

(** A role-only delta after the first chunk. *)
Lemma quiet_chunk_is_silent_witness :
  translateChatChunkToResponsesEvents
    (mkChatChunk "chatcmpl-1" "gpt-4o" 1700000000
       [mkChunkChoice 0 (mkDelta None (Some "assistant") None) None])
    (translateChatChunkToResponsesEvents toolStart initialStreamState).1
  = ((translateChatChunkToResponsesEvents toolStart initialStreamState).1, []).
Proof.
  apply (quiet_chunk_is_silent
           (mkChatChunk "chatcmpl-1" "gpt-4o" 1700000000
              [mkChunkChoice 0 (mkDelta None (Some "assistant") None) None])
           (translateChatChunkToResponsesEvents toolStart
              initialStreamState).1).
  - reflexivity.
  - repeat constructor.
Defined.

(** *** What the reducer can emit *)

Lemma tool_call_events_kinds tc st :
  Forall reducerEvent (translateToolCallDelta tc st).2.
Proof.
  unfold translateToolCallDelta. simpl. apply Forall_app. split.
  - destruct (nonempty (_ ≫= fd_name)) as [name|] eqn:Hname; [|constructor].
    apply nonempty_Some in Hname as [_ Hname]. by repeat constructor.
  - destruct (nonempty (_ ≫= fd_arguments)) as [arguments|] eqn:Harguments;
      [|constructor].
    apply nonempty_Some in Harguments as [_ Harguments].
    by repeat constructor.
Qed.

Lemma choice_events_kinds chunk choice st :
  Forall reducerEvent (translateChunkChoice chunk choice st).2.
Proof.
  rewrite translateChunkChoice_eq. simpl. repeat (apply Forall_app; split).
  - destruct (nonempty (d_content _)) as [content|] eqn:Hcontent;
      [|constructor].
    apply nonempty_Some in Hcontent as [_ Hcontent]. by repeat constructor.
  - destruct (d_tool_calls _) as [tool_calls|]; [|constructor].
    apply forEach_events. apply tool_call_events_kinds.
  - destruct (nonempty (cc_finish_reason _)); by repeat constructor.
Qed.

(** X9: The translated stream is made of five kinds of events only: created,
    text deltas with non-empty text, added function-call items (id equal to
    call_id, a non-empty name, empty arguments, no status), argument deltas
    with non-empty text, and completed events with status "completed" and no
    usage.  It never holds an added message item, an output_item.done event
    or an error event. *)
Theorem reducer_event_kinds chunks st :
  Forall reducerEvent (translateChunks chunks st).2.
Proof.
  apply forEach_events. intros chunk st'.
  rewrite translateChatChunkToResponsesEvents_eq. simpl.
  apply Forall_app. split.
  - destruct (sentCreated st'); by repeat constructor.
  - apply forEach_events. apply choice_events_kinds.
Qed.

End ReducerExtras.

(** * Further results on the controller and the upstream client *)

Section ControllerExtras.

Variable createResponses : ResponsesPayload → ResponsesResult.
Variable createChatCompletions : ChatCompletionsPayload → ChatResult.
Variable models : option (list Model).

Lemma rp_input_preparePayload payload :
  rp_input (preparePayload models payload) = sanitizeInput (rp_input payload).
Proof.
  unfold preparePayload. simpl. by destruct (rp_max_output_tokens payload).
Qed.

Lemma sanitizeInput_outputsMatched input :
  outputsMatched (sanitizeInput input).
Proof.
  intros call_id output Hin.
  apply elem_of_collectFunctionCallIds. rewrite collect_sanitizeInput.
  rewrite sanitizeInput_filter in Hin.
  apply list_elem_of_In, filter_In in Hin as [_ Hkeep].
  simpl in Hkeep. by apply bool_decide_eq_true in Hkeep.
Qed.

Lemma sanitizeInput_twice input :
  sanitizeInput (sanitizeInput input) = sanitizeInput input.
Proof.
  rewrite (sanitizeInput_filter (sanitizeInput input)), collect_sanitizeInput.
  rewrite sanitizeInput_filter. apply filter_filter_same.
Qed.

(** X10: Preparing a payload twice changes nothing more: the orphan pass has
    nothing left to remove and the token limit is already settled. *)
Theorem preparePayload_idempotent payload :
  preparePayload models (preparePayload models payload)
  = preparePayload models payload.
Proof.
  destruct payload as [model input instructions max_output_tokens temperature
    top_p stream tools tool_choice metadata store previous_response_id].
  unfold preparePayload, with_input, with_max_output_tokens, selectModel.
  simpl. destruct max_output_tokens as [limit|]; simpl.
  - by rewrite sanitizeInput_twice.
  - match goal with
    | |- context [?selected ≫= limits_max_output_tokens] =>
        destruct (selected ≫= limits_max_output_tokens) as [limit|] eqn:Hlimit
    end; simpl; rewrite sanitizeInput_twice, ?Hlimit; done.
Qed.

Lemma handler_calls_cases payload :
  (handleResponses createResponses createChatCompletions models
     (Some payload)).1 = []
  ∨ (handleResponses createResponses createChatCompletions models
       (Some payload)).1
    = [CallResponses (preparePayload models payload)]
  ∨ (handleResponses createResponses createChatCompletions models
       (Some payload)).1
    = [CallResponses (preparePayload models payload);
       CallChatCompletions
         (translateResponsesToChatPayload (preparePayload models payload))].
Proof.
  unfold handleResponses, tryPrimary, tryFallback.
  destruct (supportsEndpoint _ "/responses").
  - destruct (createResponses _) as [response|messages|error];
      [right; by left|right; by left|].
    destruct (shouldFallbackToChat error _) eqn:Hshould; simpl.
    + apply shouldFallbackToChat_eligible in Hshould as [-> _]. simpl.
      right. by right.
    + right. by left.
  - simpl. rewrite andb_false_r. by left.
Qed.

(** X11: The handler never calls an endpoint twice and never calls
    Chat-Completions first: it makes no call, or the Responses call alone,
    or the Responses call followed by one Chat-Completions call; both carry
    the prepared payload, the second in translated form. *)
Theorem upstream_calls_shape payload :
  (handleResponses createResponses createChatCompletions models
     (Some payload)).1 = []
  ∨ (handleResponses createResponses createChatCompletions models
       (Some payload)).1
    = [CallResponses (preparePayload models payload)]
  ∨ (handleResponses createResponses createChatCompletions models
       (Some payload)).1
    = [CallResponses (preparePayload models payload);
       CallChatCompletions
         (translateResponsesToChatPayload (preparePayload models payload))].
Proof. apply handler_calls_cases. Qed.


(** X13: A success of the primary attempt is handed over as it came, object or
    stream, and nothing else is called. *)
Theorem primary_success_passthrough payload :
  supportsEndpoint (modelEndpoints models payload) "/responses" = true →
  (∀ response,
     createResponses (preparePayload models payload)
     = ResponsesObject response →
     handleResponses createResponses createChatCompletions models
       (Some payload)
     = ([CallResponses (preparePayload models payload)], JsonReply response))
  ∧ (∀ messages,
       createResponses (preparePayload models payload)
       = ResponsesStream messages →
       handleResponses createResponses createChatCompletions models
         (Some payload)
       = ([CallResponses (preparePayload models payload)],
          PassThroughStream messages)).
Proof.
  intros Hprimary. unfold handleResponses, tryPrimary.
  fold (modelEndpoints models payload). rewrite Hprimary.
  split; intros ? ->; done.
Qed.

(** X14: Once the fallback is entered its outcome is final: a decoded reply is
    translated, a stream is answered by the events the stream loop writes
    from the initial state (for a stream in which no parsed data makes the
    reducer throw, the reducer's events over the decoded chunks), and a
    failure of the fallback call is the error forwarded, not the failure of
    the primary attempt. *)
Theorem fallback_reply payload error :
  supportsEndpoint (modelEndpoints models payload) "/responses" = true →
  createResponses (preparePayload models payload) = ResponsesThrows error →
  fallbackEligible error
    (supportsEndpoint (modelEndpoints models payload) "/chat/completions") →
  (handleResponses createResponses createChatCompletions models
     (Some payload)).2
  = match createChatCompletions
            (translateResponsesToChatPayload (preparePayload models payload))
    with
    | ChatObject chatResponse =>
        JsonReply (translateChatResponseToResponses chatResponse)
    | ChatStream messages =>
        TranslatedStream (streamLoop messages initialLoopState).2
    | ChatThrows error' => ForwardError error'
    end
  ∧ (∀ messages,
       createChatCompletions
         (translateResponsesToChatPayload (preparePayload models payload))
       = ChatStream messages →
       Forall notThrowing messages →
       (handleResponses createResponses createChatCompletions models
          (Some payload)).2
       = TranslatedStream
           (translateChunks (decodedChunks messages) initialStreamState).2).
Proof.
  intros Hprimary Hthrows Heligible.
  unfold handleResponses, tryPrimary, tryFallback.
  fold (modelEndpoints models payload). rewrite Hprimary, Hthrows.
  apply shouldFallbackToChat_eligible in Heligible as Hshould.
  rewrite Hshould. destruct Heligible as [-> _]. simpl.
  split; [done|].
  intros messages -> Hmessages.
  by rewrite (proj2 (stream_messages_decoded messages initialLoopState
                       Hmessages)).
Qed.

End ControllerExtras.

(** A 422 on the primary attempt, then a failing fallback: the client gets
    the fallback's error. *)
Lemma fallback_reply_witness :
  (handleResponses
     (fun _ => ResponsesThrows (HTTPError 422 "unprocessable"))
     (fun _ => ChatThrows (HTTPError 503 "overloaded"))
     None (Some (userHiPayload "gpt-4o"))).2
  = ForwardError (HTTPError 503 "overloaded").
Proof.
  apply (fun eligible =>
           proj1 (fallback_reply
                    (fun _ => ResponsesThrows (HTTPError 422 "unprocessable"))
                    (fun _ => ChatThrows (HTTPError 503 "overloaded"))
                    None (userHiPayload "gpt-4o")
                    (HTTPError 422 "unprocessable")
                    eq_refl eq_refl eligible)).
  split; [reflexivity|]. exists 422. split; [reflexivity|]. by right; right.
Defined.

(** A decoded object on the primary attempt is the reply. *)
Lemma primary_success_passthrough_witness :
  handleResponses
    (fun _ =>
       ResponsesObject
         (mkResponsesResponse "resp_1" 1700000000 "gpt-4o" [] None
            (Some StatusIncomplete) None))
    (fun _ => ChatThrows (OtherError "not reached"))
    None (Some (userHiPayload "gpt-4o"))
  = ([CallResponses (preparePayload None (userHiPayload "gpt-4o"))],
     JsonReply
       (mkResponsesResponse "resp_1" 1700000000 "gpt-4o" [] None
          (Some StatusIncomplete) None)).
Proof.
  apply (proj1
           (primary_success_passthrough
              (fun _ =>
                 ResponsesObject
                   (mkResponsesResponse "resp_1" 1700000000 "gpt-4o" [] None
                      (Some StatusIncomplete) None))
              (fun _ => ChatThrows (OtherError "not reached"))
              None (userHiPayload "gpt-4o") eq_refl)).
  reflexivity.
Defined.

Section ClientExtras.

Variable copilotToken : option string.
Variable fetch : UpstreamRequest → FetchResult.
Variable createChatCompletions : ChatCompletionsPayload → ChatResult.
Variable models : option (list Model).

Lemma vision_after_filter ids input :
  existsb hasVisionContent (List.filter (keepItem ids) input)
  = existsb hasVisionContent input.
Proof.
  induction input as [|item input IH]; [done|].
  destruct item; simpl; rewrite ?IH; try done.
  destruct (bool_decide _); simpl; by rewrite IH.
Qed.

Lemma isAgentTurn_input item :
  isAgentTurn item = isAgentInput item && negb (isFunctionCallOutput item).
Proof. by destruct item as [| | | |[|] ? ?| | |]. Qed.

Lemma vision_by_content (input : list ResponsesInputItem) :
  existsb hasVisionContent input = true
  ↔ ∃ item content image_url detail,
      item ∈ input
      ∧ arrayContent item = Some content
      ∧ ResponsesInputImage image_url detail ∈ content.
Proof.
  rewrite existsb_exists. split.
  - intros (item & Hin & Hvision).
    assert (∃ content, arrayContent item = Some content
                       ∧ existsb isInputImage content = true)
      as (content & Hcontent & Himage).
    { destruct item as [| |[|]|[|]|? [|]| | |]; try discriminate Hvision;
        eauto. }
    apply existsb_exists in Himage as (part & Hpart & Himage).
    destruct part; try discriminate Himage.
    exists item, content, image_url, detail.
    by rewrite !list_elem_of_In.
  - intros (item & content & image_url & detail & Hin & Hcontent & Himage).
    exists item. split; [by apply list_elem_of_In|].
    assert (existsb isInputImage content = true) as Hexists.
    { apply existsb_exists. exists (ResponsesInputImage image_url detail).
      split; [by apply list_elem_of_In|done]. }
    destruct item as [| |[|]|[|]|? [|]| | |]; try discriminate Hcontent;
      injection Hcontent as ->; done.
Qed.

Lemma agent_after_sanitizing input :
  existsb isAgentInput (sanitizeInput input) = existsb isAgentTurn input.
Proof.
  apply eq_true_iff_eq. rewrite !existsb_exists. split.
  - intros (item & Hin & Hagent).
    destruct (isFunctionCallOutput item) eqn:Houtput.
    + destruct item; try discriminate Houtput.
      apply list_elem_of_In in Hin.
      destruct (sanitizeInput_outputsMatched _ _ _ Hin)
        as (name & arguments & id & Hcall).
      exists (ResponsesFunctionCall call_id name arguments id).
      split; [|done].
      rewrite sanitizeInput_filter in Hcall.
      by apply list_elem_of_In, filter_In in Hcall as [Hcall _].
    + exists item. split.
      * rewrite sanitizeInput_filter in Hin. by apply filter_In in Hin as [? _].
      * rewrite isAgentTurn_input. by rewrite Hagent, Houtput.
  - intros (item & Hin & Hturn).
    rewrite isAgentTurn_input in Hturn.
    apply andb_true_iff in Hturn as [Hagent Hcall].
    exists item. split; [|done].
    rewrite sanitizeInput_filter. apply filter_In. split; [done|].
    by destruct item.
Qed.

(** X15: The request that goes upstream is flagged from the sanitized
    history.  The vision flag is the one of the history as received (the
    pass removes no image): it is set exactly when some item has an array
    content that holds an input_image part.  X-Initiator is "agent" exactly
    when the history as received holds an item with the assistant role or a
    function call, and "user" otherwise; function-call outputs alone do not
    make an agent request, since without a call they are all orphans. *)
Theorem prepared_request_flags payload :
  req_vision (buildRequest (preparePayload models payload))
  = existsb hasVisionContent (rp_input payload)
  ∧ (req_vision (buildRequest (preparePayload models payload)) = true
     ↔ ∃ item content image_url detail,
         item ∈ rp_input payload
         ∧ arrayContent item = Some content
         ∧ ResponsesInputImage image_url detail ∈ content)
  ∧ req_initiator (buildRequest (preparePayload models payload))
    = (if existsb isAgentTurn (rp_input payload) then "agent" else "user")
  ∧ req_body (buildRequest (preparePayload models payload))
    = preparePayload models payload.
Proof.
  unfold buildRequest. simpl. rewrite rp_input_preparePayload.
  rewrite agent_after_sanitizing, sanitizeInput_filter, vision_after_filter.
  split; [done|]. split; [apply vision_by_content|done].
Qed.

(** X16: The only HTTP failures the client throws are those of an answer whose
    status is outside 200-299, and they carry that answer's status and body
    text. *)
Theorem createResponses_http_error payload status body :
  createResponses copilotToken fetch payload
  = ResponsesThrows (HTTPError status body) →
  ∃ response,
    fetch (buildRequest payload) = FetchResolves response
    ∧ up_status response = status
    ∧ up_text response = body
    ∧ ¬ (200 ≤ status ≤ 299).
Proof.
  unfold createResponses.
  destruct (truthy copilotToken); simpl; [|done].
  destruct (fetch (buildRequest payload)) as [message|response]; [done|].
  destruct (responseOk response) eqn:Hok; simpl.
  - destruct (rp_stream payload) as [[|]|]; try done;
      by destruct (up_json response).
  - intros [= <- <-]. exists response. repeat split; try done.
    unfold responseOk in Hok. apply andb_false_iff in Hok.
    rewrite !Z.leb_gt in Hok. lia.
Qed.

(** X17: Without a token nothing is fetched: the handler forwards the client's
    own error, and the Chat-Completions endpoint is not tried even when the
    model supports it. *)
Theorem missing_token_is_terminal payload :
  truthy copilotToken = false →
  supportsEndpoint (modelEndpoints models payload) "/responses" = true →
  handleResponses (createResponses copilotToken fetch) createChatCompletions
    models (Some payload)
  = ([CallResponses (preparePayload models payload)],
     ForwardError (OtherError "Copilot token not found")).
Proof.
  intros Htoken Hprimary. unfold handleResponses, tryPrimary.
  fold (modelEndpoints models payload). rewrite Hprimary.
  unfold createResponses at 1. rewrite Htoken. simpl.
  by destruct (supportsEndpoint _ "/chat/completions").
Qed.


End ClientExtras.


Lemma missing_token_is_terminal_witness :
  handleResponses
    (createResponses None (fun _ => FetchRejects "not reached"))
    (fun _ => ChatThrows (OtherError "not reached"))
    None (Some (userHiPayload "gpt-4o"))
  = ([CallResponses (preparePayload None (userHiPayload "gpt-4o"))],
     ForwardError (OtherError "Copilot token not found")).
Proof.
  apply (missing_token_is_terminal None (fun _ => FetchRejects "not reached")
           (fun _ => ChatThrows (OtherError "not reached"))
           None (userHiPayload "gpt-4o")); reflexivity.
Defined.

Lemma createResponses_http_error_witness :
  ∃ response,
    (fun _ : UpstreamRequest =>
       FetchResolves (mkUpstreamResponse 404 "no route" (inl "not JSON") []))
      (buildRequest (userHiPayload "gpt-4o"))
    = FetchResolves response
    ∧ up_status response = 404
    ∧ up_text response = "no route"
    ∧ ¬ (200 ≤ 404 ≤ 299).
Proof.
  apply (createResponses_http_error (Some "token")
           (fun _ =>
              FetchResolves
                (mkUpstreamResponse 404 "no route" (inl "not JSON") []))
           (userHiPayload "gpt-4o") 404 "no route").
  reflexivity.
Defined.
